(** * N-API reference and handle bridge: a model of [bun.js/bindings/napi.h]

    The header declares the per-module environment [napi_env__], the
    conversions between JavaScriptCore values and opaque N-API handles
    ([Zig::toJS], [Zig::toNapi]), the tagged weak slot [NapiWeakValue] and
    the reference-counted handle [NapiRef].  Each of them is embedded
    below as a record together with its member functions, written as
    computations of a small state-and-trace monad: the state is the object
    the member function runs on, the trace lists the externally visible
    effects (calls through foreign function pointers, release of strong
    and weak storage) in program order. *)

From Stdlib Require Import ZArith List String Bool Lia.
Import ListNotations.

Local Open Scope Z_scope.

(** ** Machine-level data *)

(** Addresses ([void*], object pointers, function pointers); [nullptr] is
    address zero. *)
Definition ptr : Type := Z.
Definition nullptr : ptr := 0.

(** [if (p)] on a pointer. *)
Definition non_null (p : ptr) : bool := negb (p =? nullptr).

(** Two's-complement views of a 64-bit word: the signed reading of
    [int64_t] and the unsigned reading of [uintptr_t]. *)
Definition two64 : Z := 2 ^ 64.
Definition two63 : Z := 2 ^ 63.
Definition to_uintptr (x : Z) : Z := x mod two64.
Definition to_int64 (x : Z) : Z := (x + two63) mod two64 - two63.
Definition int64_range (x : Z) : Prop := - two63 <= x < two63.

(** [uint32_t] arithmetic wraps modulo [2^32]. *)
Definition two32 : Z := 2 ^ 32.
Definition UINT32_MAX : Z := two32 - 1.
Definition wrap32 (x : Z) : Z := x mod two32.
Definition uint32_range (x : Z) : Prop := 0 <= x <= UINT32_MAX.

(** ** Effects *)

(** What a member function does to the world outside the object it runs
    on. *)
Inductive Event : Type :=
| Ev_finalize (cb env data hint : ptr)
    (* a call [cb(env, data, hint)] through a [napi_finalize] pointer *)
| Ev_Strong_clear
    (* a call of [JSC::Strong::clear()]: strong storage released *)
| Ev_Weak_deallocate (cell owner context : ptr)
    (* a weak observation of [cell] deregistered from the heap *)
| Ev_NapiWeakValue_clear.
    (* a call of [NapiWeakValue::clear()]: weak storage released *)

Definition Event_eqb (a b : Event) : bool :=
  match a, b with
  | Ev_finalize c e d h, Ev_finalize c' e' d' h' =>
      (c =? c') && (e =? e') && (d =? d') && (h =? h')
  | Ev_Strong_clear, Ev_Strong_clear => true
  | Ev_Weak_deallocate c o x, Ev_Weak_deallocate c' o' x' =>
      (c =? c') && (o =? o') && (x =? x')
  | Ev_NapiWeakValue_clear, Ev_NapiWeakValue_clear => true
  | _, _ => false
  end.

(** A member function of an object of type [St] returning an [A]. *)
Definition M (St A : Type) : Type := St -> A * St * list Event.

Definition ret {St A} (a : A) : M St A := fun s => (a, s, []).

Definition bind {St A B} (m : M St A) (f : A -> M St B) : M St B :=
  fun s =>
    let '(a, s1, t1) := m s in
    let '(b, s2, t2) := f a s1 in
    (b, s2, t1 ++ t2).

Definition gets {St A} (f : St -> A) : M St A := fun s => (f s, s, []).
Definition modify {St} (f : St -> St) : M St unit := fun s => (tt, f s, []).
Definition emit {St} (e : Event) : M St unit := fun s => (tt, s, [e]).

(** Run a member function of a field inside the enclosing object. *)
Definition zoom {St Fld A} (proj : St -> Fld) (upd : Fld -> St -> St)
    (m : M Fld A) : M St A :=
  fun s => let '(a, f', t) := m (proj s) in (a, upd f' s, t).

Definition result_of {St A} (x : A * St * list Event) : A := fst (fst x).
Definition state_of {St A} (x : A * St * list Event) : St := snd (fst x).
Definition trace_of {St A} (x : A * St * list Event) : list Event := snd x.

Declare Scope member_scope.
Delimit Scope member_scope with member.
Notation "x <- m ;; k" := (bind m (fun x => k))
  (at level 61, m at next level, right associativity) : member_scope.
Notation "m ;; k" := (bind m (fun _ => k))
  (at level 61, right associativity) : member_scope.
Local Open Scope member_scope.

(** How often the event [e] occurs in a trace. *)
Definition occurrences (e : Event) (t : list Event) : nat :=
  List.length (filter (Event_eqb e) t).

(** [a] happens, [b] happens later, and [b] never happens before that
    occurrence of [a]. *)
Definition strictly_before (a b : Event) (t : list Event) : Prop :=
  exists t1 t2, t = t1 ++ a :: t2 /\ ~ In b t1 /\ In b t2.

(** ** The environment, [struct napi_env__] *)

Definition napi_status : Type := Z.
Definition napi_finalize : Type := ptr.

(** [napi_ok] heads the message table (its entry is commented [napi_ok] in
    the source). *)
Definition napi_ok : napi_status := 0.

(** Modelled from the spec: the enumeration [napi_status] is declared in
    [node_api.h], which is not part of the sources at hand.  The spec says
    the table covers every defined code contiguously; the header's
    [static_assert(std::size(error_messages) == last_status + 1)] over the
    22-entry table fixes the last code, [napi_would_deadlock], to 21. *)
Definition napi_would_deadlock : napi_status := 21.

(** [napi_extended_error_info], with the four members the header's
    initialiser names.  A C string is [Some s]; [nullptr] is [None]. *)
Record napi_extended_error_info : Type := mk_error_info {
  error_message : option string;
  engine_reserved : ptr;
  engine_error_code : Z;
  error_code : napi_status
}.

Definition set_error_code (c : napi_status) (i : napi_extended_error_info) :=
  {| error_message := error_message i;
     engine_reserved := engine_reserved i;
     engine_error_code := engine_error_code i;
     error_code := c |}.

Definition set_error_message (m : option string) (i : napi_extended_error_info) :=
  {| error_message := m;
     engine_reserved := engine_reserved i;
     engine_error_code := engine_error_code i;
     error_code := error_code i |}.

(** The module descriptor is kept by value; only its identity matters
    here. *)
Definition napi_module : Type := ptr.

Record napi_env__ : Type := mk_env {
  m_globalObject : ptr;
  m_napiModule : napi_module;
  m_instanceData : ptr;
  m_instanceDataFinalizer : napi_finalize;
  m_instanceDataFinalizerHint : ptr;
  m_extendedErrorInfo : napi_extended_error_info
}.

(** A [napi_env] is a pointer to a [napi_env__]. *)
Definition napi_env : Type := ptr.

(** The constructor [napi_env__(globalObject, napiModule)] with the
    default member initialisers. *)
Definition napi_env_ctor (globalObject : ptr) (napiModule : napi_module)
  : napi_env__ :=
  {| m_globalObject := globalObject;
     m_napiModule := napiModule;
     m_instanceData := nullptr;
     m_instanceDataFinalizer := nullptr;
     m_instanceDataFinalizerHint := nullptr;
     m_extendedErrorInfo :=
       {| error_message := Some EmptyString;
          engine_reserved := nullptr;
          engine_error_code := 0;
          error_code := napi_ok |} |}.

Definition globalObject (e : napi_env__) : ptr := m_globalObject e.
Definition napiModule (e : napi_env__) : napi_module := m_napiModule e.

(** [cleanup()]: [this] is the address of the environment, handed to the
    finalizer as its first argument.  The finalizer is foreign code; the
    call is recorded in the trace and the member function itself writes
    no member. *)
Definition cleanup (this : napi_env) : M napi_env__ unit :=
  fin <- gets m_instanceDataFinalizer ;;
  if non_null fin then
    data <- gets m_instanceData ;;
    hint <- gets m_instanceDataFinalizerHint ;;
    emit (Ev_finalize fin this data hint)
  else ret tt.

Definition setInstanceData (data : ptr) (finalizer : napi_finalize) (hint : ptr)
  : M napi_env__ unit :=
  modify (fun e =>
    {| m_globalObject := m_globalObject e;
       m_napiModule := m_napiModule e;
       m_instanceData := data;
       m_instanceDataFinalizer := finalizer;
       m_instanceDataFinalizerHint := hint;
       m_extendedErrorInfo := m_extendedErrorInfo e |}).

Definition getInstanceData : M napi_env__ ptr := gets m_instanceData.

Definition with_extendedErrorInfo
    (f : napi_extended_error_info -> napi_extended_error_info)
    (e : napi_env__) : napi_env__ :=
  {| m_globalObject := m_globalObject e;
     m_napiModule := m_napiModule e;
     m_instanceData := m_instanceData e;
     m_instanceDataFinalizer := m_instanceDataFinalizer e;
     m_instanceDataFinalizerHint := m_instanceDataFinalizerHint e;
     m_extendedErrorInfo := f (m_extendedErrorInfo e) |}.

Definition setLastError (status : napi_status) : M napi_env__ napi_status :=
  modify (with_extendedErrorInfo (set_error_code status)) ;;
  ret status.

Local Open Scope string_scope.

(** The local table of [getLastErrorInfo()]. *)
Definition error_messages : list (option string) :=
  [ None; (* napi_ok *)
    Some "Invalid argument";
    Some "An object was expected";
    Some "A string was expected";
    Some "A string or symbol was expected";
    Some "A function was expected";
    Some "A number was expected";
    Some "A boolean was expected";
    Some "An array was expected";
    Some "Unknown failure";
    Some "An exception is pending";
    Some "The async work item was cancelled";
    Some "napi_escape_handle already called on scope";
    Some "Invalid handle scope usage";
    Some "Invalid callback scope usage";
    Some "Thread-safe function queue is full";
    Some "Thread-safe function handle is closing";
    Some "A bigint was expected";
    Some "A date was expected";
    Some "An arraybuffer was expected";
    Some "A detachable arraybuffer was expected";
    Some "Main thread would deadlock" ].

Local Close Scope string_scope.

Definition last_status : napi_status := napi_would_deadlock.

(** [error_messages[status]] for an index inside the array. *)
Definition error_messages_at (status : napi_status) : option string :=
  nth (Z.to_nat status) error_messages None.

(** [getLastErrorInfo()]: refreshes the stored message from the table and
    returns (a reference to) the record. *)
Definition getLastErrorInfo : M napi_env__ napi_extended_error_info :=
  status <- gets (fun e => error_code (m_extendedErrorInfo e)) ;;
  (if (0 <=? status) && (status <=? last_status) then
     modify (with_extendedErrorInfo
               (set_error_message (error_messages_at status)))
   else
     modify (with_extendedErrorInfo (set_error_message None))) ;;
  gets m_extendedErrorInfo.

(** A call made on an environment through its public member functions,
    and a history of such calls on one environment. *)
Inductive EnvCall : Type :=
| Env_cleanup (this : napi_env)
| Env_setInstanceData (data : ptr) (finalizer : napi_finalize) (hint : ptr)
| Env_getInstanceData
| Env_setLastError (status : napi_status)
| Env_getLastErrorInfo.

Definition env_call (c : EnvCall) : M napi_env__ unit :=
  match c with
  | Env_cleanup this => cleanup this
  | Env_setInstanceData data finalizer hint =>
      setInstanceData data finalizer hint
  | Env_getInstanceData => _ <- getInstanceData ;; ret tt
  | Env_setLastError status => _ <- setLastError status ;; ret tt
  | Env_getLastErrorInfo => _ <- getLastErrorInfo ;; ret tt
  end.

Fixpoint env_calls (cs : list EnvCall) : M napi_env__ unit :=
  match cs with
  | [] => ret tt
  | c :: cs' => env_call c ;; env_calls cs'
  end.

Definition is_setInstanceData (c : EnvCall) : bool :=
  match c with
  | Env_setInstanceData _ _ _ => true
  | _ => false
  end.

Definition is_finalize (e : Event) : bool :=
  match e with
  | Ev_finalize _ _ _ _ => true
  | _ => false
  end.

(** The calls through a [napi_finalize] pointer in a trace. *)
Definition finalizer_calls (t : list Event) : list Event :=
  filter is_finalize t.

Definition is_cleanup (c : EnvCall) : bool :=
  match c with
  | Env_cleanup _ => true
  | _ => false
  end.

(** The status of the latest [setLastError] of a history, [init] when it
    has none. *)
Definition latest_status (init : napi_status) (cs : list EnvCall) : napi_status :=
  fold_left (fun acc c =>
               match c with
               | Env_setLastError status => status
               | _ => acc
               end) cs init.

(** Equality of table entries. *)
Definition message_eqb (a b : option string) : bool :=
  match a, b with
  | Some x, Some y => String.eqb x y
  | None, None => true
  | _, _ => false
  end.

(** ** JavaScriptCore values and handles, as the header uses them *)

(** [JSC::JSValue] in the 64-bit encoding: one [int64_t] word.  Numbers
    carry a tag in the top bits, the other immediates the bit [OtherTag];
    a word with none of these bits is a cell pointer, and the all-zero
    word is the empty value [JSValue()]. *)
Module JSValue.

Record t : Type := mk { asInt64 : Z }.

Definition NumberTag : Z := 0xfffe000000000000.
Definition OtherTag : Z := 0x2.
Definition NotCellMask : Z := Z.lor NumberTag OtherTag.

(** [JSValue()] *)
Definition empty : t := {| asInt64 := 0 |}.
Definition jsNull : t := {| asInt64 := 0x02 |}.
Definition jsUndefined : t := {| asInt64 := 0x0a |}.

(** The constructor from a cell pointer. *)
Definition of_cell (p : ptr) : t := {| asInt64 := to_int64 p |}.

Definition isCell (v : t) : bool := Z.land (asInt64 v) NotCellMask =? 0.
Definition asCell (v : t) : ptr := to_uintptr (asInt64 v).

(** [EncodedJSValue] is [int64_t]. *)
Definition encode (v : t) : Z := asInt64 v.
Definition decode (e : Z) : t := {| asInt64 := e |}.

(** The word fits in 64 bits. *)
Definition wf (v : t) : Prop := int64_range (asInt64 v).

End JSValue.

(** [JSC::Weak<T>]: a nullable pointer to a weak implementation record
    owned by the heap; the record stays [Live] until the collector finds
    the target unreachable. *)
Module Weak.

Inductive State : Type := Live | Dead | Finalized | Deallocated.

Record WeakImpl : Type := mk_impl {
  state : State;
  target : ptr;
  weakHandleOwner : ptr;
  context : ptr
}.

Definition t : Type := option WeakImpl.

(** The constructor from a target, an owner and a context. *)
Definition ctor (cell owner ctx : ptr) : t :=
  if non_null cell
  then Some {| state := Live; target := cell;
               weakHandleOwner := owner; context := ctx |}
  else None.

(** [get()]: the target while the observation is live, else [nullptr]. *)
Definition get (w : t) : ptr :=
  match w with
  | Some impl =>
      match state impl with
      | Live => target impl
      | _ => nullptr
      end
  | None => nullptr
  end.

(** [clear()] *)
Definition clear : M t unit :=
  w <- gets (fun w => w) ;;
  match w with
  | Some impl =>
      emit (Ev_Weak_deallocate (target impl) (weakHandleOwner impl)
                               (context impl)) ;;
      modify (fun _ => None)
  | None => ret tt
  end.

End Weak.

(** [JSC::Strong<JSC::Unknown>]: a nullable handle slot holding a value
    the collector treats as a root. *)
Module Strong.

Definition t : Type := option JSValue.t.

Definition get (s : t) : JSValue.t :=
  match s with
  | Some v => v
  | None => JSValue.empty
  end.

Definition set (v : JSValue.t) : M t unit := modify (fun _ => Some v).

Definition clear : M t unit :=
  emit Ev_Strong_clear ;;
  modify (fun _ => None).

End Strong.

(** ** Handle scopes *)

(** Modelled from the spec: [NapiHandleScopeImpl] is declared in
    [napi_handle_scope.h], which is not part of the sources at hand.  The
    spec gives a scope an ordered sequence of the values vended since it
    opened and a back-pointer to the enclosing scope; [append] adds a
    value at the end of that sequence. *)
Module NapiHandleScopeImpl.

#[local] Unset Elimination Schemes.
Inductive t : Type := mk {
  m_storage : list JSValue.t;
  m_parent : option t
}.
#[local] Set Elimination Schemes.

Definition append (val : JSValue.t) : M t unit :=
  modify (fun s => {| m_storage := m_storage s ++ [val];
                      m_parent := m_parent s |}).

End NapiHandleScopeImpl.

(** Modelled from the spec: [Zig::GlobalObject] is declared in
    [ZigGlobalObject.h], which is not part of the sources at hand.  Of
    its members the header reads one, the currently open (innermost)
    handle scope, null when no scope is open. *)
Module GlobalObject.

Record t : Type := mk {
  m_currentNapiHandleScopeImpl : option NapiHandleScopeImpl.t
}.

End GlobalObject.

(** ** [namespace Zig] *)

Module Zig.

Import GlobalObject.

(** [napi_value] is a pointer type; the casts to and from
    [EncodedJSValue] reinterpret the same 64 bits. *)
Definition napi_value : Type := ptr.

Definition toJS (val : napi_value) : JSValue.t :=
  JSValue.decode (to_int64 val).

(** [toNapi(val, globalObject)]: the state is the object [globalObject]
    points to. *)
Definition toNapi (val : JSValue.t) : M GlobalObject.t napi_value :=
  (if JSValue.isCell val then
     cur <- gets m_currentNapiHandleScopeImpl ;;
     match cur with
     | Some scope =>
         zoom (fun _ => scope)
              (fun scope' _ => {| m_currentNapiHandleScopeImpl := Some scope' |})
              (NapiHandleScopeImpl.append val)
     | None => ret tt
     end
   else ret tt) ;;
  ret (to_uintptr (JSValue.encode val)).

Record NapiFinalizer : Type := mk_finalizer {
  finalize_hint : ptr;
  finalize_cb : napi_finalize
}.

(** *** [class NapiWeakValue] *)
Module WeakTypeTag.
Inductive t : Type := NotSet | Primitive | Cell | String.
End WeakTypeTag.

(** The union [WeakValueUnion], given by its three views.  Only the
    view selected by the tag is meaningful; the others hold whatever
    the storage was last written with. *)
Record WeakValueUnion : Type := mk_union {
  primitive : JSValue.t;
  cell : Weak.t;
  string : Weak.t
}.

(** [WeakValueUnion()]: the all-zero word, in each view. *)
Definition WeakValueUnion_ctor : WeakValueUnion :=
  {| primitive := JSValue.empty; cell := None; string := None |}.

Module NapiWeakValue.

Record t : Type := mk {
  m_tag : WeakTypeTag.t;
  m_value : WeakValueUnion
}.

Definition ctor : t :=
  {| m_tag := WeakTypeTag.NotSet; m_value := WeakValueUnion_ctor |}.

Definition isPrimitive (w : t) : bool :=
  match m_tag w with WeakTypeTag.Primitive => true | _ => false end.
Definition isCell (w : t) : bool :=
  match m_tag w with WeakTypeTag.Cell => true | _ => false end.
Definition isString (w : t) : bool :=
  match m_tag w with WeakTypeTag.String => true | _ => false end.

Definition get (w : t) : JSValue.t :=
  match m_tag w with
  | WeakTypeTag.Primitive => primitive (m_value w)
  | WeakTypeTag.Cell => JSValue.of_cell (Weak.get (cell (m_value w)))
  | WeakTypeTag.String => JSValue.of_cell (Weak.get (string (m_value w)))
  | _ => JSValue.empty
  end.

Definition with_cell (c : Weak.t) (w : t) : t :=
  {| m_tag := m_tag w;
     m_value := {| primitive := primitive (m_value w);
                   cell := c;
                   string := string (m_value w) |} |}.

Definition with_string (s : Weak.t) (w : t) : t :=
  {| m_tag := m_tag w;
     m_value := {| primitive := primitive (m_value w);
                   cell := cell (m_value w);
                   string := s |} |}.

(** Modelled from the spec: [clear()] is defined in [napi.cpp], which
    is not part of the sources at hand.  Clearing a [Cell] or
    [String] state deregisters the weak observation and then
    invalidates the tag; the slot ends up as a fresh one. *)
Definition clear : M t unit :=
  tag <- gets m_tag ;;
  match tag with
  | WeakTypeTag.Cell =>
      zoom (fun w => cell (m_value w)) with_cell Weak.clear
  | WeakTypeTag.String =>
      zoom (fun w => string (m_value w)) with_string Weak.clear
  | _ => ret tt
  end ;;
  modify (fun _ => ctor) ;;
  emit Ev_NapiWeakValue_clear.

(** Modelled from the spec: [setPrimitive], [setCell], [setString]
    and [set] are defined in [napi.cpp].  Setting a value first
    clears any prior state; a primitive is stored inline with no
    collector interaction; a cell or string registers a weak
    observation with the given owner and context. *)
Definition setPrimitive (v : JSValue.t) : M t unit :=
  clear ;;
  modify (fun _ =>
    {| m_tag := WeakTypeTag.Primitive;
       m_value := {| primitive := v; cell := None; string := None |} |}).

Definition setCell (c owner ctx : ptr) : M t unit :=
  clear ;;
  modify (fun _ =>
    {| m_tag := WeakTypeTag.Cell;
       m_value := {| primitive := JSValue.empty;
                     cell := Weak.ctor c owner ctx;
                     string := None |} |}).

Definition setString (s owner ctx : ptr) : M t unit :=
  clear ;;
  modify (fun _ =>
    {| m_tag := WeakTypeTag.String;
       m_value := {| primitive := JSValue.empty;
                     cell := None;
                     string := Weak.ctor s owner ctx |} |}).

(** [cell_isString] answers whether the cell at an address is a
    string; it is a capability of the managed heap. *)
Definition set (cell_isString : ptr -> bool)
    (v : JSValue.t) (owner ctx : ptr) : M t unit :=
  if JSValue.isCell v then
    if cell_isString (JSValue.asCell v)
    then setString (JSValue.asCell v) owner ctx
    else setCell (JSValue.asCell v) owner ctx
  else setPrimitive v.

(** The typed accessors [cell()], [primitive()] and [string()].  Each
    starts with an [ASSERT] on the tag; a failed assertion is [None]. *)
Definition cell (w : t) : option ptr :=
  if isCell w then Some (Weak.get (Zig.cell (m_value w))) else None.

Definition primitive (w : t) : option JSValue.t :=
  if isPrimitive w then Some (Zig.primitive (m_value w)) else None.

Definition string (w : t) : option ptr :=
  if isString w then Some (Weak.get (Zig.string (m_value w))) else None.

End NapiWeakValue.

(** *** [class NapiRef] *)
Module NapiRef.

(** [env->globalObject()], named apart from the member below. *)
Definition env_globalObject (e : napi_env__) : ptr := globalObject e.

Record t : Type := mk {
  env : napi_env;
  globalObject : Weak.t;
  weakValueRef : NapiWeakValue.t;
  strongRef : Strong.t;
  finalizer : NapiFinalizer;
  data : ptr;
  refCount : Z
}.

Definition with_weakValueRef (w : NapiWeakValue.t) (r : t) : t :=
  {| env := env r; globalObject := globalObject r; weakValueRef := w;
     strongRef := strongRef r; finalizer := finalizer r; data := data r;
     refCount := refCount r |}.

Definition with_strongRef (s : Strong.t) (r : t) : t :=
  {| env := env r; globalObject := globalObject r;
     weakValueRef := weakValueRef r; strongRef := s;
     finalizer := finalizer r; data := data r; refCount := refCount r |}.

Definition with_refCount (c : Z) (r : t) : t :=
  {| env := env r; globalObject := globalObject r;
     weakValueRef := weakValueRef r; strongRef := strongRef r;
     finalizer := finalizer r; data := data r; refCount := c |}.

(** [NapiRef(env, count)].  [env_obj] is the environment [env] points
    to; [count] arrives as a [uint32_t].  The member [finalize_cb] has no
    initialiser, so its initial content [indeterminate] is an input. *)
Definition ctor (env : napi_env) (env_obj : napi_env__) (count : Z)
    (indeterminate : napi_finalize) : t :=
  {| env := env;
     globalObject := Weak.ctor (env_globalObject env_obj) nullptr nullptr;
     weakValueRef := NapiWeakValue.ctor;
     strongRef := None;
     finalizer := {| finalize_hint := nullptr; finalize_cb := indeterminate |};
     data := nullptr;
     refCount := wrap32 count |}.

Definition value (r : t) : JSValue.t :=
  if refCount r =? 0 then NapiWeakValue.get (weakValueRef r)
  else Strong.get (strongRef r).

(** The body of the destructor. *)
Definition dtor : M t unit :=
  zoom strongRef with_strongRef Strong.clear ;;
  (* The weak ref can lead to calling the destructor
     so we must first clear the weak ref before we call the finalizer *)
  zoom weakValueRef with_weakValueRef NapiWeakValue.clear.

(** The state in which the destructor starts on the weak storage. *)
Definition dtor_midpoint (r : t) : t :=
  state_of (zoom strongRef with_strongRef Strong.clear r).

Section RefCounting.

(** Capabilities of the managed heap and of the reference machinery:
    whether a cell is a string, and the identity of the weak observer
    that references register with. *)
Variable cell_isString : ptr -> bool.
Variable weakOwner : ptr.

(** Modelled from the spec: [ref()] is defined in [napi.cpp], which is
    not part of the sources at hand.  It increments the count and, when
    the count goes from 0 to 1, re-materialises strong storage from the
    current weak-observed value (a strong reference to no value when the
    weak slot reports the target gone). *)
Definition ref : M t unit :=
  old <- gets refCount ;;
  modify (with_refCount (wrap32 (old + 1))) ;;
  if old =? 0 then
    v <- gets (fun r => NapiWeakValue.get (weakValueRef r)) ;;
    zoom strongRef with_strongRef (Strong.set v)
  else ret tt.

(** Modelled from the spec: [unref()] is defined in [napi.cpp].  It
    decrements the count and, on reaching 0, demotes from strong to weak
    storage, re-establishing weak tracking on the current value.  [this]
    is the address of the reference, the context of the observation. *)
Definition unref (this : ptr) : M t unit :=
  old <- gets refCount ;;
  modify (with_refCount (wrap32 (old - 1))) ;;
  now <- gets refCount ;;
  if now =? 0 then
    v <- gets (fun r => Strong.get (strongRef r)) ;;
    zoom weakValueRef with_weakValueRef
         (NapiWeakValue.set cell_isString v weakOwner this) ;;
    zoom strongRef with_strongRef Strong.clear
  else ret tt.

(** A call made on a reference by native code. *)
Inductive Call : Type := Call_ref | Call_unref.

Definition call (this : ptr) (c : Call) : M t unit :=
  match c with
  | Call_ref => ref
  | Call_unref => unref this
  end.

(** An interleaved sequence of calls, in order. *)
Fixpoint calls (this : ptr) (cs : list Call) : M t unit :=
  match cs with
  | [] => ret tt
  | c :: cs' => call this c ;; calls this cs'
  end.

End RefCounting.

(** The number of [ref()] and of [unref()] calls in a sequence. *)
Fixpoint n_ref (cs : list Call) : Z :=
  match cs with
  | [] => 0
  | Call_ref :: cs' => 1 + n_ref cs'
  | Call_unref :: cs' => n_ref cs'
  end.

Fixpoint n_unref (cs : list Call) : Z :=
  match cs with
  | [] => 0
  | Call_ref :: cs' => n_unref cs'
  | Call_unref :: cs' => 1 + n_unref cs'
  end.

(** At every prefix there are at most as many [unref()] as [ref()]. *)
Definition balanced (cs : list Call) : Prop :=
  forall k : nat, n_unref (firstn k cs) <= n_ref (firstn k cs).

(** At every prefix the count [c + n - m] fits a [uint32_t]. *)
Definition fits (c : Z) (cs : list Call) : Prop :=
  forall k : nat, c + n_ref (firstn k cs) - n_unref (firstn k cs) <= UINT32_MAX.

End NapiRef.

(** Handing out several values in turn, as a native call does with its
    arguments: the handles come back in the same order. *)
Fixpoint toNapi_all (vals : list JSValue.t) : M GlobalObject.t (list napi_value) :=
  match vals with
  | [] => ret []
  | val :: rest =>
      h <- toNapi val ;;
      hs <- toNapi_all rest ;;
      ret (h :: hs)
  end.

(** *** [class NapiPrototype] *)
Module NapiPrototype.

(** What [subclass] reads of a [JSC::Structure]: the class its cells
    belong to, the global object that owns it, and the prototype its
    cells get. *)
Record Structure : Type := mk_structure {
  classInfoForCells : ptr;
  structure_globalObject : ptr;
  storedPrototype : ptr
}.

Record t : Type := mk {
  structure : Structure;
  napiRef : ptr
}.

(** [JSC::FunctionRareData]: the allocation structure cached for the
    function, null until one is created. *)
Record FunctionRareData : Type := mk_rareData {
  internalFunctionAllocationStructure : option Structure
}.

(** The part of the heap [subclass] works on: whether an exception is
    pending in the VM, the rare data of the function [newTarget] (absent
    until first asked for), and the [NapiPrototype] cells allocated so
    far, oldest first. *)
Record Heap : Type := mk_heap {
  exception : bool;
  m_rareData : option FunctionRareData;
  cells : list t
}.

(** [targetFunction->ensureRareData(vm)] *)
Definition ensureRareData : M Heap FunctionRareData :=
  rd <- gets m_rareData ;;
  match rd with
  | Some rareData => ret rareData
  | None =>
      modify (fun h =>
        {| exception := exception h;
           m_rareData := Some {| internalFunctionAllocationStructure := None |};
           cells := cells h |}) ;;
      ret {| internalFunctionAllocationStructure := None |}
  end.

(** The rare data behind the pointer [ensureRareData] returned, as it is
    now. *)
Definition rareData_now (h : Heap) : FunctionRareData :=
  match m_rareData h with
  | Some rareData => rareData
  | None => {| internalFunctionAllocationStructure := None |}
  end.

(** [create(vm, structure)]: a new cell with the member initialiser
    [napiRef = nullptr]. *)
Definition create (structure : Structure) : M Heap t :=
  modify (fun h =>
    {| exception := exception h;
       m_rareData := m_rareData h;
       cells := cells h ++ [ {| structure := structure; napiRef := nullptr |} ] |}) ;;
  ret {| structure := structure; napiRef := nullptr |}.

Section Subclass.

(** [newTarget->get(globalObject, vm.propertyNames->prototype).getObject()]:
    a property read, which may run script and leave an exception
    pending. *)
Variable get_prototype : ptr -> M Heap ptr.

(** [rareData->createInternalFunctionAllocationStructureFromBase(vm,
    globalObject, prototype, baseStructure)], a function of
    JavaScriptCore. *)
Variable createInternalFunctionAllocationStructureFromBase :
  ptr -> ptr -> Structure -> M Heap Structure.

(** The heap once the rare data exists and [prototype] has been read. *)
Definition after_lookup (globalObject : ptr) (h : Heap) : Heap :=
  state_of (get_prototype globalObject (state_of (ensureRareData h))).

(** The test of the [if]: a cached structure of the same class and the
    same global object. *)
Definition reusable (this : t) (globalObject : ptr) (st : Structure) : bool :=
  (classInfoForCells st =? classInfoForCells (structure this))
  && (structure_globalObject st =? globalObject).

(** [subclass(globalObject, newTarget)]; [nullptr] is [None]. *)
Definition subclass (this : t) (globalObject : ptr) : M Heap (option t) :=
  _ <- ensureRareData ;;
  prototype <- get_prototype globalObject ;;
  thrown <- gets exception ;;
  if thrown then ret None else
  cached <- gets (fun h => internalFunctionAllocationStructure (rareData_now h)) ;;
  st <- match cached with
        | Some st =>
            if reusable this globalObject st then ret st
            else createInternalFunctionAllocationStructureFromBase
                   globalObject prototype (structure this)
        | None =>
            createInternalFunctionAllocationStructureFromBase
              globalObject prototype (structure this)
        end ;;
  thrown <- gets exception ;;
  if thrown then ret None else
  footprint <- create st ;;
  ret (Some footprint).

End Subclass.

End NapiPrototype.

End Zig.

Import Zig.

(** * Properties *)

(** ** The state-and-trace monad *)

Lemma occurrences_app (e : Event) (t1 t2 : list Event) :
  occurrences e (t1 ++ t2) = (occurrences e t1 + occurrences e t2)%nat.
Proof.
  unfold occurrences. rewrite filter_app. apply length_app.
Qed.

Lemma Event_eqb_eq (a b : Event) : Event_eqb a b = true <-> a = b.
Proof.
  split.
  - destruct a, b; simpl; try discriminate; try reflexivity; intro H.
    + repeat (apply andb_prop in H; destruct H as [H ?]).
      repeat match goal with E : (_ =? _) = true |- _ => apply Z.eqb_eq in E end.
      congruence.
    + repeat (apply andb_prop in H; destruct H as [H ?]).
      repeat match goal with E : (_ =? _) = true |- _ => apply Z.eqb_eq in E end.
      congruence.
  - intros <-. destruct a; simpl; rewrite ?Z.eqb_refl; reflexivity.
Qed.

(** A member function run after another: the traces concatenate. *)
Lemma trace_of_bind {St A B} (m : M St A) (f : A -> M St B) (s : St) :
  trace_of (bind m f s) =
  trace_of (m s) ++ trace_of (f (result_of (m s)) (state_of (m s))).
Proof.
  unfold bind, trace_of, result_of, state_of.
  destruct (m s) as [[a s1] t1]. simpl.
  destruct (f a s1) as [[b s2] t2]. reflexivity.
Qed.

Lemma state_of_bind {St A B} (m : M St A) (f : A -> M St B) (s : St) :
  state_of (bind m f s) = state_of (f (result_of (m s)) (state_of (m s))).
Proof.
  unfold bind, trace_of, result_of, state_of.
  destruct (m s) as [[a s1] t1]. simpl.
  destruct (f a s1) as [[b s2] t2]. reflexivity.
Qed.

Lemma trace_of_zoom {St Fld A} (proj : St -> Fld) (upd : Fld -> St -> St)
    (m : M Fld A) (s : St) :
  trace_of (zoom proj upd m s) = trace_of (m (proj s)).
Proof.
  unfold zoom, trace_of. destruct (m (proj s)) as [[a f] t]. reflexivity.
Qed.

Lemma state_of_zoom {St Fld A} (proj : St -> Fld) (upd : Fld -> St -> St)
    (m : M Fld A) (s : St) :
  state_of (zoom proj upd m s) = upd (state_of (m (proj s))) s.
Proof.
  unfold zoom, state_of. destruct (m (proj s)) as [[a f] t]. reflexivity.
Qed.

Lemma result_of_zoom {St Fld A} (proj : St -> Fld) (upd : Fld -> St -> St)
    (m : M Fld A) (s : St) :
  result_of (zoom proj upd m s) = result_of (m (proj s)).
Proof.
  unfold zoom, result_of. destruct (m (proj s)) as [[a f] t]. reflexivity.
Qed.

Lemma state_of_gets {St A} (f : St -> A) (s : St) : state_of (gets f s) = s.
Proof. reflexivity. Qed.

Lemma result_of_gets {St A} (f : St -> A) (s : St) : result_of (gets f s) = f s.
Proof. reflexivity. Qed.

Lemma state_of_modify {St} (f : St -> St) (s : St) :
  state_of (modify f s) = f s.
Proof. reflexivity. Qed.

Lemma state_of_ret {St A} (a : A) (s : St) : state_of (ret a s) = s.
Proof. reflexivity. Qed.

(** Push [state_of] through the member functions of a sequence. *)
Ltac member_simpl :=
  repeat (first
    [ rewrite state_of_bind
    | rewrite state_of_zoom
    | rewrite state_of_gets
    | rewrite result_of_gets
    | rewrite state_of_modify
    | rewrite state_of_ret ];
    cbv beta).

(** ** Wrap-around *)

Lemma to_int64_to_uintptr (x : Z) :
  int64_range x -> to_int64 (to_uintptr x) = x.
Proof.
  unfold int64_range, to_int64, to_uintptr, two63, two64. intros Hx.
  assert (H64 : 2 ^ 64 = 2 * 2 ^ 63) by reflexivity.
  set (h := 2 ^ 63) in *. assert (0 < h) by (subst h; lia).
  rewrite H64.
  destruct (Z_lt_le_dec x 0) as [Hneg | Hpos].
  - replace (x mod (2 * h)) with (x + 2 * h).
    + replace (x + 2 * h + h) with ((x + h) + 1 * (2 * h)) by lia.
      rewrite Z.mod_add by lia. rewrite Z.mod_small; lia.
    + symmetry. replace x with ((x + 2 * h) + (-1) * (2 * h)) at 1 by lia.
      rewrite Z.mod_add by lia. apply Z.mod_small. lia.
  - rewrite (Z.mod_small x) by lia. rewrite Z.mod_small; lia.
Qed.

Lemma wrap32_small (x : Z) : uint32_range x -> wrap32 x = x.
Proof.
  unfold uint32_range, UINT32_MAX, wrap32. intros H.
  apply Z.mod_small. lia.
Qed.

(** ** The environment *)

(** The header's [static_assert]: the table has one entry per status
    code up to the last one. *)
Lemma error_messages_cover_all_status_codes :
  Z.of_nat (List.length error_messages) = last_status + 1.
Proof. reflexivity. Qed.

Lemma in_table_range (code : napi_status) :
  (0 <=? code) && (code <=? last_status) = true <->
  napi_ok <= code <= napi_would_deadlock.
Proof.
  unfold last_status, napi_ok.
  rewrite andb_true_iff, Z.leb_le, Z.leb_le. tauto.
Qed.

(** What [getLastErrorInfo()] returns, by the stored code alone. *)
Lemma getLastErrorInfo_result (e : napi_env__) :
  result_of (getLastErrorInfo e) =
  set_error_message
    (if (0 <=? error_code (m_extendedErrorInfo e))
        && (error_code (m_extendedErrorInfo e) <=? last_status)
     then error_messages_at (error_code (m_extendedErrorInfo e))
     else None)
    (m_extendedErrorInfo e).
Proof.
  unfold getLastErrorInfo, bind, gets, modify, result_of. simpl.
  destruct ((0 <=? _) && (_ <=? last_status)); reflexivity.
Qed.

(** C7.  For every status [s] and every state of the environment,
    [setLastError(s)] returns exactly [s]. *)
Theorem setLastError_returns_its_argument (s : napi_status) (e : napi_env__) :
  result_of (setLastError s e) = s.
Proof. reflexivity. Qed.

(** C8.  [setLastError(s)] writes the member [error_code] of the
    extended-error record and nothing else: every other member of the
    environment and of the record, the stored message included, keeps
    its value, and no outside effect happens.  The message is computed
    by [getLastErrorInfo()] from the table at each read: what it returns
    does not depend on the message stored beforehand, and its message is
    the table entry of the stored code (null outside the table). *)
Theorem setLastError_writes_only_error_code (s : napi_status) (e : napi_env__) :
  let e' := state_of (setLastError s e) in
  (m_globalObject e' = m_globalObject e
   /\ m_napiModule e' = m_napiModule e
   /\ m_instanceData e' = m_instanceData e
   /\ m_instanceDataFinalizer e' = m_instanceDataFinalizer e
   /\ m_instanceDataFinalizerHint e' = m_instanceDataFinalizerHint e
   /\ error_message (m_extendedErrorInfo e') = error_message (m_extendedErrorInfo e)
   /\ engine_reserved (m_extendedErrorInfo e') = engine_reserved (m_extendedErrorInfo e)
   /\ engine_error_code (m_extendedErrorInfo e') = engine_error_code (m_extendedErrorInfo e)
   /\ error_code (m_extendedErrorInfo e') = s
   /\ trace_of (setLastError s e) = [])
  /\ (forall stale : option String.string,
        result_of (getLastErrorInfo
                     (with_extendedErrorInfo (set_error_message stale) e'))
        = result_of (getLastErrorInfo e'))
  /\ error_message (result_of (getLastErrorInfo e')) =
     (if (0 <=? s) && (s <=? last_status) then error_messages_at s else None).
Proof.
  split; [| split].
  - repeat split.
  - intros stale. rewrite !getLastErrorInfo_result. reflexivity.
  - rewrite getLastErrorInfo_result. reflexivity.
Qed.

(** C6.  After [setLastError(code)], [getLastErrorInfo()] returns a
    record whose [error_code] is [code]; its [error_message] is the
    table entry of [code] when [code] lies between [napi_ok] and
    [napi_would_deadlock], and null for any other code. *)
Theorem getLastErrorInfo_after_setLastError (code : napi_status) (e : napi_env__) :
  let info := result_of (getLastErrorInfo (state_of (setLastError code e))) in
  error_code info = code
  /\ (napi_ok <= code <= napi_would_deadlock ->
      error_message info = nth (Z.to_nat code) error_messages None)
  /\ (~ (napi_ok <= code <= napi_would_deadlock) ->
      error_message info = None).
Proof.
  cbv zeta. rewrite getLastErrorInfo_result.
  change (error_code (m_extendedErrorInfo (state_of (setLastError code e))))
    with code.
  split; [reflexivity | split].
  - intros Hin. apply in_table_range in Hin. rewrite Hin. reflexivity.
  - intros Hout. simpl.
    destruct ((0 <=? code) && (code <=? last_status)) eqn:E; [| reflexivity].
    apply in_table_range in E. contradiction.
Qed.

(** The table entry of a code in the middle of the range, and the null
    message just past its end. *)
Lemma getLastErrorInfo_after_setLastError_witness :
  let e := napi_env_ctor 4096 8192 in
  let inside := result_of (getLastErrorInfo (state_of (setLastError 9 e))) in
  let outside := result_of (getLastErrorInfo (state_of (setLastError 22 e))) in
  (error_code inside = 9 /\ error_message inside = Some "Unknown failure"%string)
  /\ (error_code outside = 22 /\ error_message outside = None).
Proof.
  cbv zeta. split.
  - destruct (getLastErrorInfo_after_setLastError 9 (napi_env_ctor 4096 8192))
      as (Hc & Hin & _).
    split; [exact Hc |].
    rewrite Hin; [reflexivity | unfold napi_ok, napi_would_deadlock; lia].
  - destruct (getLastErrorInfo_after_setLastError 22 (napi_env_ctor 4096 8192))
      as (Hc & _ & Hout).
    split; [exact Hc |].
    apply Hout. unfold napi_ok, napi_would_deadlock. lia.
Defined.

(** [cleanup()] writes no member of the environment. *)
Lemma cleanup_state (this : napi_env) (e : napi_env__) :
  state_of (cleanup this e) = e.
Proof.
  unfold cleanup, bind, gets, emit, ret, state_of. simpl.
  destruct (non_null (m_instanceDataFinalizer e)); reflexivity.
Qed.

Lemma cleanup_trace (this : napi_env) (e : napi_env__) :
  trace_of (cleanup this e) =
  if non_null (m_instanceDataFinalizer e)
  then [Ev_finalize (m_instanceDataFinalizer e) this
                    (m_instanceData e) (m_instanceDataFinalizerHint e)]
  else [].
Proof.
  unfold cleanup, bind, gets, emit, ret, trace_of. simpl.
  destruct (non_null (m_instanceDataFinalizer e)); reflexivity.
Qed.

(** As long as [setInstanceData] was never called, no finalizer is
    registered and no call of the history reached one. *)
Lemma never_set_no_finalizer (cs : list EnvCall) (e : napi_env__) :
  m_instanceDataFinalizer e = nullptr ->
  forallb (fun c => negb (is_setInstanceData c)) cs = true ->
  m_instanceDataFinalizer (state_of (env_calls cs e)) = nullptr
  /\ finalizer_calls (trace_of (env_calls cs e)) = [].
Proof.
  revert e. induction cs as [| c cs IH]; intros e Hnull Hnever.
  - split; [exact Hnull | reflexivity].
  - simpl in Hnever. apply andb_prop in Hnever. destruct Hnever as [Hc Hcs].
    simpl env_calls. rewrite state_of_bind, trace_of_bind.
    unfold finalizer_calls. rewrite filter_app.
    assert (Hstep : m_instanceDataFinalizer (state_of (env_call c e)) = nullptr
                    /\ filter is_finalize (trace_of (env_call c e)) = []).
    { destruct c; simpl in Hc; try discriminate; simpl env_call.
      - rewrite cleanup_state, cleanup_trace, Hnull. split; [reflexivity |].
        reflexivity.
      - split; [exact Hnull | reflexivity].
      - split; [exact Hnull | reflexivity].
      - unfold getLastErrorInfo, bind, gets, modify, ret, state_of, trace_of.
        simpl. destruct ((0 <=? _) && (_ <=? last_status)); simpl;
          (split; [exact Hnull | reflexivity]). }
    destruct Hstep as [Hs Ht].
    destruct (IH (state_of (env_call c e)) Hs Hcs) as [IHs IHt].
    split; [exact IHs |].
    rewrite Ht. exact IHt.
Qed.

(** C4, as stated, fails: with a finalizer registered, a second
    [cleanup()] invokes it a second time. *)
Lemma cleanup_twice_fires_twice :
  let e := state_of (setInstanceData 100 200 300 (napi_env_ctor 4096 8192)) in
  finalizer_calls (trace_of (env_calls [Env_cleanup 7; Env_cleanup 7] e))
  = [Ev_finalize 200 7 100 300; Ev_finalize 200 7 100 300].
Proof. reflexivity. Qed.

(** C4, amended.  Each call of [cleanup()] invokes the instance-data
    finalizer exactly once when a non-null finalizer is registered, with
    the registered data and hint, and not at all when none is; it leaves
    the registration as it found it.  On an environment on which
    [setInstanceData] was never called no finalizer is ever invoked; right
    after [setInstanceData(data, finalizer, hint)] with a non-null
    [finalizer], a [cleanup()] invokes [finalizer(this, data, hint)] once. *)
Theorem cleanup_fires_registered_finalizer_once_per_call
    (this : napi_env) (e : napi_env__) :
  state_of (cleanup this e) = e
  /\ (m_instanceDataFinalizer e <> nullptr ->
      trace_of (cleanup this e) =
      [Ev_finalize (m_instanceDataFinalizer e) this
                   (m_instanceData e) (m_instanceDataFinalizerHint e)])
  /\ (m_instanceDataFinalizer e = nullptr -> trace_of (cleanup this e) = [])
  /\ (forall (g : ptr) (m : napi_module) (cs : list EnvCall),
        forallb (fun c => negb (is_setInstanceData c)) cs = true ->
        finalizer_calls
          (trace_of ((env_calls cs ;; cleanup this) (napi_env_ctor g m))) = [])
  /\ (forall (data hint : ptr) (finalizer : napi_finalize),
        finalizer <> nullptr ->
        trace_of ((setInstanceData data finalizer hint ;; cleanup this) e)
        = [Ev_finalize finalizer this data hint]).
Proof.
  split; [apply cleanup_state |].
  split; [| split; [| split]].
  - intros Hset. rewrite cleanup_trace. unfold non_null.
    destruct (Z.eqb_spec (m_instanceDataFinalizer e) nullptr);
      [contradiction | reflexivity].
  - intros Hnull. rewrite cleanup_trace, Hnull. reflexivity.
  - intros g m cs Hnever.
    destruct (never_set_no_finalizer cs (napi_env_ctor g m) eq_refl Hnever)
      as [Hs Ht].
    rewrite trace_of_bind. unfold finalizer_calls in *.
    rewrite filter_app, Ht, cleanup_trace, Hs. reflexivity.
  - intros data hint finalizer Hfin.
    rewrite trace_of_bind, cleanup_trace. simpl.
    unfold non_null.
    destruct (Z.eqb_spec finalizer nullptr); [contradiction | reflexivity].
Qed.

Lemma cleanup_fires_registered_finalizer_once_per_call_witness :
  let e := state_of (setInstanceData 100 200 300 (napi_env_ctor 4096 8192)) in
  trace_of (cleanup 7 e) = [Ev_finalize 200 7 100 300]
  /\ trace_of (cleanup 7 (napi_env_ctor 4096 8192)) = [].
Proof.
  cbv zeta. split.
  - apply (cleanup_fires_registered_finalizer_once_per_call 7
             (state_of (setInstanceData 100 200 300 (napi_env_ctor 4096 8192)))).
    discriminate.
  - apply (cleanup_fires_registered_finalizer_once_per_call 7
             (napi_env_ctor 4096 8192)).
    reflexivity.
Defined.

(** ** Handles: [toJS] and [toNapi] *)

Lemma toNapi_result (v : JSValue.t) (g : GlobalObject.t) :
  result_of (toNapi v g) = to_uintptr (JSValue.encode v).
Proof.
  unfold toNapi, bind, gets, ret, zoom, result_of.
  destruct (JSValue.isCell v); simpl;
    [destruct (GlobalObject.m_currentNapiHandleScopeImpl g) |]; reflexivity.
Qed.

Lemma toNapi_state (v : JSValue.t) (g : GlobalObject.t) :
  state_of (toNapi v g) =
  if JSValue.isCell v then
    match GlobalObject.m_currentNapiHandleScopeImpl g with
    | Some scope =>
        {| GlobalObject.m_currentNapiHandleScopeImpl :=
             Some {| NapiHandleScopeImpl.m_storage :=
                       NapiHandleScopeImpl.m_storage scope ++ [v];
                     NapiHandleScopeImpl.m_parent :=
                       NapiHandleScopeImpl.m_parent scope |} |}
    | None => g
    end
  else g.
Proof.
  unfold toNapi, bind, gets, ret, zoom, state_of.
  destruct (JSValue.isCell v); simpl;
    [destruct (GlobalObject.m_currentNapiHandleScopeImpl g) |]; reflexivity.
Qed.

(** C5, as stated, fails: with a scope open, handing out the primitive
    [undefined] appends nothing to it. *)
Lemma toNapi_primitive_not_appended :
  let scope := {| NapiHandleScopeImpl.m_storage := [];
                  NapiHandleScopeImpl.m_parent := None |} in
  let g := {| GlobalObject.m_currentNapiHandleScopeImpl := Some scope |} in
  GlobalObject.m_currentNapiHandleScopeImpl g = Some scope
  /\ GlobalObject.m_currentNapiHandleScopeImpl
       (state_of (toNapi JSValue.jsUndefined g)) = Some scope
  /\ NapiHandleScopeImpl.m_storage scope = [].
Proof. cbv zeta. repeat split. Qed.

(** C5, amended.  A value that is a heap cell is appended by [toNapi] at
    the end of the innermost open scope when one is open, the scope's
    parent and earlier entries staying as they were; when no scope is
    open, or when the value is not a cell, nothing is appended and the
    global object is left as it was. *)
Theorem toNapi_appends_cells_to_current_scope
    (v : JSValue.t) (g : GlobalObject.t) :
  (forall scope,
      JSValue.isCell v = true ->
      GlobalObject.m_currentNapiHandleScopeImpl g = Some scope ->
      GlobalObject.m_currentNapiHandleScopeImpl (state_of (toNapi v g)) =
      Some {| NapiHandleScopeImpl.m_storage :=
                NapiHandleScopeImpl.m_storage scope ++ [v];
              NapiHandleScopeImpl.m_parent :=
                NapiHandleScopeImpl.m_parent scope |})
  /\ (GlobalObject.m_currentNapiHandleScopeImpl g = None ->
      state_of (toNapi v g) = g)
  /\ (JSValue.isCell v = false -> state_of (toNapi v g) = g).
Proof.
  rewrite toNapi_state. repeat split.
  - intros scope Hcell Hopen. rewrite Hcell, Hopen. reflexivity.
  - intros Hnone. rewrite Hnone. destruct (JSValue.isCell v); reflexivity.
  - intros Hprim. rewrite Hprim. reflexivity.
Qed.

(** A cell handed out inside a nested scope lands in the inner scope. *)
Lemma toNapi_appends_cells_to_current_scope_witness :
  let outer := {| NapiHandleScopeImpl.m_storage := [JSValue.of_cell 4096];
                  NapiHandleScopeImpl.m_parent := None |} in
  let inner := {| NapiHandleScopeImpl.m_storage := [JSValue.of_cell 8192];
                  NapiHandleScopeImpl.m_parent := Some outer |} in
  let g := {| GlobalObject.m_currentNapiHandleScopeImpl := Some inner |} in
  GlobalObject.m_currentNapiHandleScopeImpl
    (state_of (toNapi (JSValue.of_cell 12288) g)) =
  Some {| NapiHandleScopeImpl.m_storage :=
            [JSValue.of_cell 8192; JSValue.of_cell 12288];
          NapiHandleScopeImpl.m_parent := Some outer |}.
Proof.
  cbv zeta.
  exact (proj1
           (toNapi_appends_cells_to_current_scope (JSValue.of_cell 12288)
              {| GlobalObject.m_currentNapiHandleScopeImpl :=
                   Some {| NapiHandleScopeImpl.m_storage := [JSValue.of_cell 8192];
                           NapiHandleScopeImpl.m_parent :=
                             Some {| NapiHandleScopeImpl.m_storage :=
                                       [JSValue.of_cell 4096];
                                     NapiHandleScopeImpl.m_parent := None |} |} |})
           _ eq_refl eq_refl).
Defined.

(** C9.  Decoding the handle [toNapi] produced gives back the value it
    was given, whether the value is a primitive or a cell and whether or
    not a scope is open. *)
Theorem toJS_toNapi_roundtrip (v : JSValue.t) (g : GlobalObject.t) :
  JSValue.wf v -> toJS (result_of (toNapi v g)) = v.
Proof.
  intros Hwf. rewrite toNapi_result.
  unfold toJS, JSValue.decode, JSValue.encode.
  rewrite to_int64_to_uintptr by exact Hwf.
  destruct v; reflexivity.
Qed.

(** The round trip of a number, whose word is negative as an [int64_t],
    with a scope open. *)
Lemma toJS_toNapi_roundtrip_witness :
  let v := {| JSValue.asInt64 := to_int64 (JSValue.NumberTag + 5) |} in
  let g := {| GlobalObject.m_currentNapiHandleScopeImpl :=
                Some {| NapiHandleScopeImpl.m_storage := [];
                        NapiHandleScopeImpl.m_parent := None |} |} in
  JSValue.asInt64 v < 0 /\ toJS (result_of (toNapi v g)) = v.
Proof.
  cbv zeta. split.
  - vm_compute. reflexivity.
  - apply toJS_toNapi_roundtrip.
    unfold JSValue.wf, int64_range. vm_compute.
    split; [discriminate | reflexivity].
Defined.

(** ** The weak slot *)

Lemma NapiWeakValue_ctor_NotSet :
  NapiWeakValue.m_tag NapiWeakValue.ctor = WeakTypeTag.NotSet.
Proof. reflexivity. Qed.


(** What [NapiWeakValue::clear()] does outside the slot: it deregisters
    the observation of a [Cell] or [String] slot, if one is registered,
    and then releases the slot. *)
Lemma NapiWeakValue_clear_trace (w : NapiWeakValue.t) :
  trace_of (NapiWeakValue.clear w) =
  match NapiWeakValue.m_tag w with
  | WeakTypeTag.Cell => trace_of (Weak.clear (cell (NapiWeakValue.m_value w)))
  | WeakTypeTag.String => trace_of (Weak.clear (string (NapiWeakValue.m_value w)))
  | _ => []
  end ++ [Ev_NapiWeakValue_clear].
Proof.
  unfold NapiWeakValue.clear, bind, gets, modify, emit, ret, zoom, trace_of.
  destruct w as [tag u]; destruct tag; simpl; try reflexivity.
  - destruct (Weak.clear (cell u)) as [[a f] t]. reflexivity.
  - destruct (Weak.clear (string u)) as [[a f] t]. reflexivity.
Qed.

(** C10.  A slot whose tag is [NotSet] reads as the empty value,
    whatever its storage holds. *)
Theorem NapiWeakValue_get_NotSet_is_empty (w : NapiWeakValue.t) :
  NapiWeakValue.m_tag w = WeakTypeTag.NotSet ->
  NapiWeakValue.get w = JSValue.empty.
Proof.
  intros Htag. unfold NapiWeakValue.get. rewrite Htag. reflexivity.
Qed.

(** A [NotSet] slot over storage that still holds [undefined] and a live
    observation of the cell at 4096. *)
Lemma NapiWeakValue_get_NotSet_is_empty_witness :
  let live := Some {| Weak.state := Weak.Live; Weak.target := 4096;
                      Weak.weakHandleOwner := 16; Weak.context := 32 |} in
  let w := {| NapiWeakValue.m_tag := WeakTypeTag.NotSet;
              NapiWeakValue.m_value :=
                {| primitive := JSValue.jsUndefined;
                   cell := live; string := live |} |} in
  NapiWeakValue.get w = JSValue.empty
  /\ JSValue.of_cell (Weak.get live) <> JSValue.empty
  /\ JSValue.jsUndefined <> JSValue.empty.
Proof.
  cbv zeta. split; [| split; discriminate].
  apply NapiWeakValue_get_NotSet_is_empty. reflexivity.
Defined.

(** ** The reference *)

(** C1.  [value()] is the weak-observed value [weakValueRef.get()] when
    [refCount] is 0 and the strongly retained value [strongRef.get()]
    when [refCount] is positive. *)
Theorem NapiRef_value_by_refCount (r : NapiRef.t) :
  (NapiRef.refCount r = 0 ->
   NapiRef.value r = NapiWeakValue.get (NapiRef.weakValueRef r))
  /\ (0 < NapiRef.refCount r ->
      NapiRef.value r = Strong.get (NapiRef.strongRef r)).
Proof.
  unfold NapiRef.value. split; intros H.
  - rewrite H. reflexivity.
  - destruct (Z.eqb_spec (NapiRef.refCount r) 0); [lia | reflexivity].
Qed.

(** A reference with count 0 answers from its weak slot, one with count
    2 from its strong handle. *)
Lemma NapiRef_value_by_refCount_witness :
  let weak := {| NapiWeakValue.m_tag := WeakTypeTag.Cell;
                 NapiWeakValue.m_value :=
                   {| primitive := JSValue.empty;
                      cell := Weak.ctor 4096 16 32;
                      string := None |} |} in
  let r0 := {| NapiRef.env := 64; NapiRef.globalObject := None;
               NapiRef.weakValueRef := weak; NapiRef.strongRef := None;
               NapiRef.finalizer := {| finalize_hint := 0; finalize_cb := 0 |};
               NapiRef.data := 0; NapiRef.refCount := 0 |} in
  let r2 := {| NapiRef.env := 64; NapiRef.globalObject := None;
               NapiRef.weakValueRef := weak;
               NapiRef.strongRef := Some (JSValue.of_cell 8192);
               NapiRef.finalizer := {| finalize_hint := 0; finalize_cb := 0 |};
               NapiRef.data := 0; NapiRef.refCount := 2 |} in
  NapiRef.value r0 = JSValue.of_cell 4096
  /\ NapiRef.value r2 = JSValue.of_cell 8192.
Proof.
  cbv zeta. split.
  - match goal with
    | |- NapiRef.value ?r = _ =>
        exact (proj1 (NapiRef_value_by_refCount r) eq_refl)
    end.
  - match goal with
    | |- NapiRef.value ?r = _ =>
        exact (proj2 (NapiRef_value_by_refCount r) eq_refl)
    end.
Defined.

Lemma Weak_clear_trace (w : Weak.t) :
  trace_of (Weak.clear w) =
  match w with
  | Some impl => [Ev_Weak_deallocate (Weak.target impl)
                    (Weak.weakHandleOwner impl) (Weak.context impl)]
  | None => []
  end.
Proof. destruct w; reflexivity. Qed.

(** The trace of [NapiWeakValue::clear()] holds the release of the weak
    storage once and no release of strong storage. *)
Lemma NapiWeakValue_clear_occurrences (w : NapiWeakValue.t) :
  occurrences Ev_NapiWeakValue_clear (trace_of (NapiWeakValue.clear w)) = 1%nat
  /\ occurrences Ev_Strong_clear (trace_of (NapiWeakValue.clear w)) = 0%nat
  /\ In Ev_NapiWeakValue_clear (trace_of (NapiWeakValue.clear w)).
Proof.
  rewrite NapiWeakValue_clear_trace.
  destruct (NapiWeakValue.m_tag w); rewrite ?Weak_clear_trace.
  - repeat split. simpl. auto.
  - repeat split. simpl. auto.
  - destruct (cell (NapiWeakValue.m_value w)); repeat split; simpl; auto.
  - destruct (string (NapiWeakValue.m_value w)); repeat split; simpl; auto.
Qed.

(** C3.  The destructor of a reference releases the strong storage
    strictly before the weak storage, whatever its count: its trace is
    the release of [strongRef] followed by the trace of
    [weakValueRef.clear()]; each release happens once; and when the weak
    storage is torn down [strongRef] is already empty while
    [weakValueRef] is still untouched. *)
Theorem NapiRef_dtor_clears_strong_before_weak (r : NapiRef.t) :
  trace_of (NapiRef.dtor r) =
    Ev_Strong_clear :: trace_of (NapiWeakValue.clear (NapiRef.weakValueRef r))
  /\ strictly_before Ev_Strong_clear Ev_NapiWeakValue_clear
       (trace_of (NapiRef.dtor r))
  /\ occurrences Ev_Strong_clear (trace_of (NapiRef.dtor r)) = 1%nat
  /\ occurrences Ev_NapiWeakValue_clear (trace_of (NapiRef.dtor r)) = 1%nat
  /\ NapiRef.strongRef (NapiRef.dtor_midpoint r) = None
  /\ NapiRef.weakValueRef (NapiRef.dtor_midpoint r) = NapiRef.weakValueRef r
  /\ state_of (NapiRef.dtor r) =
     state_of (zoom NapiRef.weakValueRef NapiRef.with_weakValueRef
                 NapiWeakValue.clear (NapiRef.dtor_midpoint r)).
Proof.
  assert (Htrace : trace_of (NapiRef.dtor r) =
            Ev_Strong_clear
              :: trace_of (NapiWeakValue.clear (NapiRef.weakValueRef r))).
  { unfold NapiRef.dtor. rewrite trace_of_bind, !trace_of_zoom, state_of_zoom.
    reflexivity. }
  destruct (NapiWeakValue_clear_occurrences (NapiRef.weakValueRef r))
    as (Hweak1 & Hstrong0 & Hin).
  split; [exact Htrace |].
  split; [| split; [| split; [| split; [| split]]]].
  - exists [], (trace_of (NapiWeakValue.clear (NapiRef.weakValueRef r))).
    split; [exact Htrace | split; [intros [] | exact Hin]].
  - rewrite Htrace.
    change (Ev_Strong_clear :: ?t) with ([Ev_Strong_clear] ++ t).
    rewrite occurrences_app, Hstrong0. reflexivity.
  - rewrite Htrace.
    change (Ev_Strong_clear :: ?t) with ([Ev_Strong_clear] ++ t).
    rewrite occurrences_app, Hweak1. reflexivity.
  - reflexivity.
  - reflexivity.
  - unfold NapiRef.dtor, NapiRef.dtor_midpoint. rewrite state_of_bind.
    reflexivity.
Qed.

(** ** Reference counting *)

Section RefCountingFacts.

Variable cell_isString : ptr -> bool.
Variable weakOwner : ptr.
Variable this : ptr.

Lemma ref_refCount (r : NapiRef.t) :
  NapiRef.refCount (state_of (NapiRef.ref r)) = wrap32 (NapiRef.refCount r + 1).
Proof.
  unfold NapiRef.ref. member_simpl.
  destruct (NapiRef.refCount r =? 0); member_simpl; reflexivity.
Qed.

Lemma unref_refCount (r : NapiRef.t) :
  NapiRef.refCount (state_of (NapiRef.unref cell_isString weakOwner this r))
  = wrap32 (NapiRef.refCount r - 1).
Proof.
  unfold NapiRef.unref. member_simpl.
  destruct (_ =? 0); member_simpl; reflexivity.
Qed.

Lemma call_refCount (c : NapiRef.Call) (r : NapiRef.t) :
  NapiRef.refCount (state_of (NapiRef.call cell_isString weakOwner this c r))
  = wrap32 (NapiRef.refCount r + NapiRef.n_ref [c] - NapiRef.n_unref [c]).
Proof.
  destruct c; cbn [NapiRef.call NapiRef.n_ref NapiRef.n_unref].
  - rewrite ref_refCount. f_equal. lia.
  - rewrite unref_refCount. f_equal. lia.
Qed.

(** While the running count stays inside [uint32_t], no call wraps and
    the count follows the calls. *)
Lemma calls_refCount_in_range (cs : list NapiRef.Call) (r : NapiRef.t) :
  (forall k : nat,
      uint32_range (NapiRef.refCount r + NapiRef.n_ref (firstn k cs)
                    - NapiRef.n_unref (firstn k cs))) ->
  NapiRef.refCount (state_of (NapiRef.calls cell_isString weakOwner this cs r))
  = NapiRef.refCount r + NapiRef.n_ref cs - NapiRef.n_unref cs.
Proof.
  revert r. induction cs as [| c cs IH]; intros r Hrange.
  - simpl. rewrite state_of_ret. lia.
  - simpl NapiRef.calls. rewrite state_of_bind.
    assert (Hstep :
      NapiRef.refCount
        (state_of (NapiRef.call cell_isString weakOwner this c r))
      = NapiRef.refCount r + NapiRef.n_ref [c] - NapiRef.n_unref [c]).
    { rewrite call_refCount. apply wrap32_small. exact (Hrange 1%nat). }
    rewrite IH.
    + rewrite Hstep.
      destruct c; cbn [NapiRef.n_ref NapiRef.n_unref]; lia.
    + intros k. rewrite Hstep. specialize (Hrange (S k)).
      unfold uint32_range in *.
      destruct c; cbn [NapiRef.n_ref NapiRef.n_unref firstn] in *; lia.
Qed.

End RefCountingFacts.

(** C2, as stated, fails: a reference created with the largest initial
    count wraps to 0 on the next [ref()]. *)
Lemma refCount_wraps_past_UINT32_MAX :
  let r := NapiRef.ctor 64 (napi_env_ctor 4096 8192) 4294967295 0 in
  let cs := [NapiRef.Call_ref] in
  NapiRef.refCount r = 4294967295
  /\ NapiRef.balanced cs
  /\ NapiRef.refCount (state_of (NapiRef.calls (fun _ => false) 16 128 cs r)) = 0
  /\ NapiRef.refCount r + NapiRef.n_ref cs - NapiRef.n_unref cs = 4294967296.
Proof.
  cbv zeta. split; [reflexivity | split; [| split; reflexivity]].
  intros k. destruct k as [| k]; simpl; [lia |].
  destruct k; simpl; lia.
Qed.

(** C2, amended.  For a reference whose count is [c], after any
    interleaved sequence of [n] calls of [ref()] and [m] calls of
    [unref()] in which [m <= n] at every prefix and the running count
    [c + n - m] never exceeds the largest [uint32_t] at any prefix, the
    member [refCount] equals [c + n - m]. *)
Theorem refCount_after_balanced_calls
    (cell_isString : ptr -> bool) (weakOwner this : ptr)
    (cs : list NapiRef.Call) (r : NapiRef.t) :
  uint32_range (NapiRef.refCount r) ->
  NapiRef.balanced cs ->
  NapiRef.fits (NapiRef.refCount r) cs ->
  NapiRef.refCount (state_of (NapiRef.calls cell_isString weakOwner this cs r))
  = NapiRef.refCount r + NapiRef.n_ref cs - NapiRef.n_unref cs.
Proof.
  intros Hc Hbal Hfit. apply calls_refCount_in_range.
  intros k. specialize (Hbal k). specialize (Hfit k).
  unfold uint32_range in *. lia.
Qed.

(** A reference created with count 0, then [ref(); unref(); ref();
    ref(); unref()]: it returns to count 0 on the way and ends with
    count 1. *)
Lemma refCount_after_balanced_calls_witness :
  let r := NapiRef.ctor 64 (napi_env_ctor 4096 8192) 0 0 in
  let cs := [NapiRef.Call_ref; NapiRef.Call_unref; NapiRef.Call_ref;
             NapiRef.Call_ref; NapiRef.Call_unref] in
  NapiRef.refCount (state_of (NapiRef.calls (fun _ => false) 16 128 cs r)) = 1.
Proof.
  cbv zeta.
  refine (eq_trans
            (refCount_after_balanced_calls (fun _ => false) 16 128
               [NapiRef.Call_ref; NapiRef.Call_unref; NapiRef.Call_ref;
                NapiRef.Call_ref; NapiRef.Call_unref]
               (NapiRef.ctor 64 (napi_env_ctor 4096 8192) 0 0) _ _ _)
            eq_refl).
  - unfold uint32_range. vm_compute. split; intro H; discriminate H.
  - intros k.
    do 6 (destruct k as [| k]; [vm_compute; intro H; discriminate H |]).
    vm_compute; intro H; discriminate H.
  - intros k.
    do 6 (destruct k as [| k]; [vm_compute; intro H; discriminate H |]).
    vm_compute; intro H; discriminate H.
Defined.

(** Promotion and demotion on a live cell: a reference of count 0 that
    observes the cell at 4096 holds it strongly after [ref()], and after
    the matching [unref()] observes it weakly again and still reads it. *)
Example ref_then_unref_keeps_the_value_readable :
  let weak := {| NapiWeakValue.m_tag := WeakTypeTag.Cell;
                 NapiWeakValue.m_value :=
                   {| primitive := JSValue.empty;
                      cell := Weak.ctor 4096 16 128;
                      string := None |} |} in
  let r0 := NapiRef.with_weakValueRef weak
              (NapiRef.ctor 64 (napi_env_ctor 4096 8192) 0 0) in
  let r1 := state_of (NapiRef.ref r0) in
  let r2 := state_of (NapiRef.unref (fun _ => false) 16 128 r1) in
  (NapiRef.refCount r1 = 1
   /\ NapiRef.strongRef r1 = Some (JSValue.of_cell 4096)
   /\ NapiRef.value r1 = JSValue.of_cell 4096)
  /\ (NapiRef.refCount r2 = 0
      /\ NapiRef.strongRef r2 = None
      /\ NapiRef.weakValueRef r2 = weak
      /\ NapiRef.value r2 = JSValue.of_cell 4096).
Proof. vm_compute. repeat split. Qed.

(** * Further properties of the header *)

(** ** The environment over a history of calls *)

(** What one call leaves in place: the bound global object and module,
    and the two engine members of the error record. *)
Lemma env_call_frame (c : EnvCall) (e : napi_env__) :
  let e' := state_of (env_call c e) in
  m_globalObject e' = m_globalObject e
  /\ m_napiModule e' = m_napiModule e
  /\ engine_reserved (m_extendedErrorInfo e') = engine_reserved (m_extendedErrorInfo e)
  /\ engine_error_code (m_extendedErrorInfo e')
     = engine_error_code (m_extendedErrorInfo e).
Proof.
  destruct c; cbv zeta; cbn [env_call].
  - rewrite cleanup_state. repeat split.
  - repeat split.
  - repeat split.
  - repeat split.
  - unfold getLastErrorInfo. member_simpl.
    destruct ((0 <=? _) && (_ <=? last_status)); member_simpl; repeat split.
Qed.

Lemma env_call_instance_data (c : EnvCall) (e : napi_env__) :
  is_setInstanceData c = false ->
  let e' := state_of (env_call c e) in
  m_instanceData e' = m_instanceData e
  /\ m_instanceDataFinalizer e' = m_instanceDataFinalizer e
  /\ m_instanceDataFinalizerHint e' = m_instanceDataFinalizerHint e.
Proof.
  intros Hc. destruct c; try discriminate Hc; cbv zeta; cbn [env_call].
  - rewrite cleanup_state. repeat split.
  - repeat split.
  - repeat split.
  - unfold getLastErrorInfo. member_simpl.
    destruct ((0 <=? _) && (_ <=? last_status)); member_simpl; repeat split.
Qed.

Lemma env_call_error_code (c : EnvCall) (e : napi_env__) :
  error_code (m_extendedErrorInfo (state_of (env_call c e))) =
  match c with
  | Env_setLastError status => status
  | _ => error_code (m_extendedErrorInfo e)
  end.
Proof.
  destruct c; cbn [env_call].
  - rewrite cleanup_state. reflexivity.
  - reflexivity.
  - reflexivity.
  - reflexivity.
  - unfold getLastErrorInfo. member_simpl.
    destruct ((0 <=? _) && (_ <=? last_status)); member_simpl; reflexivity.
Qed.

Lemma env_calls_cons (c : EnvCall) (cs : list EnvCall) (e : napi_env__) :
  state_of (env_calls (c :: cs) e) = state_of (env_calls cs (state_of (env_call c e))).
Proof. cbn [env_calls]. rewrite state_of_bind. reflexivity. Qed.

(** X1.  The instance data stored by [setInstanceData] is what
    [getInstanceData] returns after any further calls on the environment
    other than [setInstanceData]: reading, error reporting and
    [cleanup()] leave it in place. *)
Theorem getInstanceData_returns_latest_data
    (data hint : ptr) (finalizer : napi_finalize)
    (cs : list EnvCall) (e : napi_env__) :
  forallb (fun c => negb (is_setInstanceData c)) cs = true ->
  result_of (getInstanceData
               (state_of (env_calls (Env_setInstanceData data finalizer hint :: cs) e)))
  = data.
Proof.
  intros Hcs. rewrite env_calls_cons. cbn [env_call].
  unfold getInstanceData. rewrite result_of_gets.
  set (e0 := state_of (setInstanceData data finalizer hint e)).
  assert (H0 : m_instanceData e0 = data) by reflexivity.
  clearbody e0. revert e0 H0.
  induction cs as [| c cs IH]; intros e0 H0.
  - exact H0.
  - cbn [forallb] in Hcs. apply andb_prop in Hcs. destruct Hcs as [Hc Hrest].
    rewrite env_calls_cons. apply IH; [exact Hrest |].
    apply negb_true_iff in Hc.
    destruct (env_call_instance_data c e0 Hc) as (Hd & _). rewrite Hd. exact H0.
Qed.

Lemma getInstanceData_returns_latest_data_witness :
  result_of (getInstanceData
               (state_of (env_calls
                            [Env_setInstanceData 100 200 300;
                             Env_setLastError 9; Env_cleanup 7;
                             Env_getLastErrorInfo; Env_getInstanceData]
                            (napi_env_ctor 4096 8192))))
  = 100.
Proof.
  apply (getInstanceData_returns_latest_data 100 300 200
           [Env_setLastError 9; Env_cleanup 7;
            Env_getLastErrorInfo; Env_getInstanceData]).
  reflexivity.
Defined.

(** X2.  [setInstanceData] replaces the registration without invoking
    anything: after two registrations a [cleanup()] invokes the second
    finalizer alone, with the second data and hint, and the first
    finalizer is never called.  Registering a null finalizer makes
    [cleanup()] invoke nothing, while the data remains readable. *)
Theorem setInstanceData_replaces_without_finalizing
    (d1 h1 d2 h2 : ptr) (f1 f2 : napi_finalize)
    (this : napi_env) (e : napi_env__) :
  let run := (setInstanceData d1 f1 h1 ;;
              setInstanceData d2 f2 h2 ;;
              cleanup this) e in
  trace_of run = (if non_null f2 then [Ev_finalize f2 this d2 h2] else [])
  /\ result_of (getInstanceData (state_of run)) = d2.
Proof.
  cbv zeta. split.
  - rewrite !trace_of_bind, cleanup_trace. simpl.
    destruct (non_null f2); reflexivity.
  - rewrite !state_of_bind, cleanup_state. reflexivity.
Qed.

(** X3.  Across any history of calls, the code that [getLastErrorInfo()]
    reports is the status of the latest [setLastError] (the code held at
    the start when the history has none): no other member function
    writes or resets it. *)
Theorem getLastErrorInfo_reports_latest_setLastError
    (cs : list EnvCall) (e : napi_env__) :
  error_code (result_of (getLastErrorInfo (state_of (env_calls cs e))))
  = latest_status (error_code (m_extendedErrorInfo e)) cs.
Proof.
  rewrite getLastErrorInfo_result.
  change (error_code (set_error_message ?m ?i)) with (error_code i).
  revert e. induction cs as [| c cs IH]; intros e.
  - reflexivity.
  - rewrite env_calls_cons, IH, env_call_error_code.
    unfold latest_status. cbn [fold_left]. destruct c; reflexivity.
Qed.

(** X4.  [getLastErrorInfo()] is idempotent: the record it returns is
    the record it leaves stored, and a second call returns the same
    record and changes nothing. *)
Theorem getLastErrorInfo_idempotent (e : napi_env__) :
  let first := getLastErrorInfo e in
  m_extendedErrorInfo (state_of first) = result_of first
  /\ getLastErrorInfo (state_of first) = (result_of first, state_of first, []).
Proof.
  cbv zeta. unfold getLastErrorInfo, bind, gets, modify, result_of, state_of.
  destruct e as [g m d f h [msg res eng code]]. simpl.
  destruct ((0 <=? code) && (code <=? last_status)) eqn:E; simpl;
    rewrite ?E; split; reflexivity.
Qed.

(** X5.  On an environment built by the constructor, whatever calls
    follow: [globalObject()] and [napiModule()] keep returning the
    constructor's arguments, and the record [getLastErrorInfo()] returns
    has [engine_reserved] null and [engine_error_code] zero. *)
Theorem env_identity_and_engine_fields_are_constant
    (g : ptr) (m : napi_module) (cs : list EnvCall) :
  let e := state_of (env_calls cs (napi_env_ctor g m)) in
  globalObject e = g
  /\ napiModule e = m
  /\ engine_reserved (result_of (getLastErrorInfo e)) = nullptr
  /\ engine_error_code (result_of (getLastErrorInfo e)) = 0.
Proof.
  cbv zeta. rewrite getLastErrorInfo_result.
  change (engine_reserved (set_error_message ?x ?i)) with (engine_reserved i).
  change (engine_error_code (set_error_message ?x ?i)) with (engine_error_code i).
  unfold globalObject, napiModule.
  assert (H : forall e0,
             let e := state_of (env_calls cs e0) in
             m_globalObject e = m_globalObject e0
             /\ m_napiModule e = m_napiModule e0
             /\ engine_reserved (m_extendedErrorInfo e)
                = engine_reserved (m_extendedErrorInfo e0)
             /\ engine_error_code (m_extendedErrorInfo e)
                = engine_error_code (m_extendedErrorInfo e0)).
  { induction cs as [| c cs IH]; intros e0; cbv zeta.
    - repeat split.
    - rewrite env_calls_cons.
      destruct (IH (state_of (env_call c e0))) as (A & B & C & D).
      destruct (env_call_frame c e0) as (A' & B' & C' & D').
      rewrite A, B, C, D. auto. }
  apply (H (napi_env_ctor g m)).
Qed.

Lemma env_call_trace (c : EnvCall) (e : napi_env__) :
  trace_of (env_call c e) =
  match c with
  | Env_cleanup this => trace_of (cleanup this e)
  | _ => []
  end.
Proof.
  destruct c; cbn [env_call]; try reflexivity.
  rewrite trace_of_bind. unfold getLastErrorInfo.
  rewrite !trace_of_bind. cbn [gets trace_of snd app].
  destruct ((0 <=? _) && (_ <=? last_status)); reflexivity.
Qed.

(** X6.  Nothing but [cleanup()] reaches foreign code: over any history
    of calls every effect of the environment is a call of a finalizer,
    there are at most as many of them as [cleanup()] calls, and a
    history without [cleanup()] has no effect outside the environment. *)
Theorem only_cleanup_invokes_finalizers (cs : list EnvCall) (e : napi_env__) :
  let t := trace_of (env_calls cs e) in
  Forall (fun ev => is_finalize ev = true) t
  /\ (List.length t <= List.length (filter is_cleanup cs))%nat.
Proof.
  cbv zeta. revert e. induction cs as [| c cs IH]; intros e.
  - split; [constructor | apply le_n].
  - cbn [env_calls]. rewrite trace_of_bind, env_call_trace.
    destruct (IH (state_of (env_call c e))) as [IHall IHlen].
    destruct c; cbn [filter is_cleanup app]; try (split; assumption).
    rewrite cleanup_trace.
    destruct (non_null (m_instanceDataFinalizer e)); cbn [app List.length].
    + split; [constructor; [reflexivity | exact IHall] | lia].
    + split; [exact IHall | lia].
Qed.

Lemma message_eqb_eq (a b : option String.string) :
  a = b -> message_eqb a b = true.
Proof.
  intros <-. destruct a as [x |]; [apply String.eqb_refl | reflexivity].
Qed.

(** The codes of the table, as indices. *)
Lemma in_table_index (code : napi_status) :
  napi_ok <= code <= napi_would_deadlock ->
  In (Z.to_nat code) (seq 0 22).
Proof.
  unfold napi_ok, napi_would_deadlock. intros H.
  apply in_seq. lia.
Qed.

(** X7.  [getLastErrorInfo()] returns a null message exactly when the
    stored code is [napi_ok] or lies outside the table; every code from 1
    to [napi_would_deadlock] has a message. *)
Theorem getLastErrorInfo_message_null_iff (e : napi_env__) :
  let code := error_code (m_extendedErrorInfo e) in
  error_message (result_of (getLastErrorInfo e)) = None
  <-> (code = napi_ok \/ code < napi_ok \/ napi_would_deadlock < code).
Proof.
  cbv zeta. rewrite getLastErrorInfo_result.
  set (code := error_code (m_extendedErrorInfo e)).
  change (error_message (set_error_message ?m ?i)) with m.
  destruct ((0 <=? code) && (code <=? last_status)) eqn:E.
  - apply in_table_range in E.
    assert (Hall : forall n, In n (seq 0 22) ->
                     (nth n error_messages None = None <-> n = 0%nat)).
    { intros n Hn. cbn [seq] in Hn.
      repeat (destruct Hn as [<- | Hn];
              [split; [intros H; (reflexivity || discriminate H)
                      | intros H; (reflexivity || discriminate H)] |]).
      destruct Hn. }
    unfold error_messages_at. rewrite (Hall _ (in_table_index code E)).
    unfold napi_ok, napi_would_deadlock in *. split.
    + intros H. left. lia.
    + intros [H | [H | H]]; lia.
  - split; [intros _ | reflexivity].
    destruct (Z_le_gt_dec napi_ok code) as [Hlo | Hlo];
      [| right; left; lia].
    destruct (Z_le_gt_dec code napi_would_deadlock) as [Hhi | Hhi];
      [| right; right; lia].
    assert (Hin : napi_ok <= code <= napi_would_deadlock) by lia.
    apply in_table_range in Hin. congruence.
Qed.

(** All pairs of table entries at distinct indices differ. *)
Definition table_entries_distinct : bool :=
  forallb (fun i =>
    forallb (fun j =>
      (i =? j)%nat
      || negb (message_eqb (nth i error_messages None)
                           (nth j error_messages None)))
      (seq 0 22))
    (seq 0 22).

(** X8.  The table maps the status codes one to one: two codes between
    [napi_ok] and [napi_would_deadlock] with the same table entry are the
    same code, so the message identifies the code. *)
Theorem error_messages_identify_the_code (a b : napi_status) :
  napi_ok <= a <= napi_would_deadlock ->
  napi_ok <= b <= napi_would_deadlock ->
  error_messages_at a = error_messages_at b ->
  a = b.
Proof.
  intros Ha Hb Hab.
  assert (Hcheck : table_entries_distinct = true) by (vm_compute; reflexivity).
  unfold table_entries_distinct in Hcheck.
  rewrite forallb_forall in Hcheck.
  specialize (Hcheck _ (in_table_index a Ha)).
  rewrite forallb_forall in Hcheck.
  specialize (Hcheck _ (in_table_index b Hb)).
  unfold error_messages_at in Hab.
  rewrite (message_eqb_eq _ _ Hab) in Hcheck. cbn [negb] in Hcheck.
  rewrite orb_false_r in Hcheck. apply Nat.eqb_eq in Hcheck.
  unfold napi_ok in *. lia.
Qed.

Lemma error_messages_identify_the_code_witness :
  error_messages_at 13 = error_messages_at (6 + 7) /\ 13 = 6 + 7.
Proof.
  split; [reflexivity |].
  apply (error_messages_identify_the_code 13 (6 + 7));
    [unfold napi_ok, napi_would_deadlock; lia
    | unfold napi_ok, napi_would_deadlock; lia
    | reflexivity].
Defined.

(** ** Handles, in both directions *)

Lemma to_uintptr_range (x : Z) : 0 <= to_uintptr x < two64.
Proof.
  unfold to_uintptr, two64. apply Z.mod_pos_bound. reflexivity.
Qed.

Lemma to_int64_range (x : Z) : int64_range (to_int64 x).
Proof.
  unfold int64_range, to_int64.
  assert (H : 0 <= (x + two63) mod two64 < two64)
    by (apply Z.mod_pos_bound; reflexivity).
  assert (H64 : two64 = 2 * two63) by reflexivity.
  lia.
Qed.

Lemma to_uintptr_to_int64 (p : Z) :
  0 <= p < two64 -> to_uintptr (to_int64 p) = p.
Proof.
  unfold to_uintptr, to_int64. intros Hp.
  assert (H64 : two64 = 2 * two63) by reflexivity.
  assert (Hpos : 0 < two63) by reflexivity.
  destruct (Z_lt_le_dec p two63) as [Hlow | Hhigh].
  - rewrite (Z.mod_small (p + two63)) by lia.
    replace (p + two63 - two63) with p by lia. apply Z.mod_small. lia.
  - replace ((p + two63) mod two64) with (p - two63).
    + replace (p - two63 - two63) with (p + (-1) * two64) by lia.
      rewrite Z.mod_add by lia. apply Z.mod_small. lia.
    + symmetry. replace (p + two63) with ((p - two63) + 1 * two64) by lia.
      rewrite Z.mod_add by lia. apply Z.mod_small. lia.
Qed.

(** X9.  A handle is a 64-bit address that depends on the value alone,
    not on the global object or its scopes, and distinct values get
    distinct handles. *)
Theorem toNapi_handle_identifies_the_value
    (v v' : JSValue.t) (g g' : GlobalObject.t) :
  JSValue.wf v -> JSValue.wf v' ->
  0 <= result_of (toNapi v g) < two64
  /\ result_of (toNapi v g) = result_of (toNapi v g')
  /\ (result_of (toNapi v g) = result_of (toNapi v' g') -> v = v').
Proof.
  intros Hv Hv'. rewrite !toNapi_result.
  split; [apply to_uintptr_range | split; [reflexivity |]].
  intros Heq. apply (f_equal to_int64) in Heq.
  unfold JSValue.encode in Heq.
  rewrite !to_int64_to_uintptr in Heq by assumption.
  destruct v, v'. simpl in Heq. congruence.
Qed.

Lemma toNapi_handle_identifies_the_value_witness :
  let v := JSValue.of_cell 4096 in
  let open := {| GlobalObject.m_currentNapiHandleScopeImpl :=
                   Some {| NapiHandleScopeImpl.m_storage := [];
                           NapiHandleScopeImpl.m_parent := None |} |} in
  let closed := {| GlobalObject.m_currentNapiHandleScopeImpl := None |} in
  result_of (toNapi v open) = 4096
  /\ result_of (toNapi v open) = result_of (toNapi v closed).
Proof.
  cbv zeta. split; [reflexivity |].
  apply (toNapi_handle_identifies_the_value (JSValue.of_cell 4096)
           (JSValue.of_cell 4096));
    unfold JSValue.wf, int64_range; vm_compute;
    (split; [discriminate | reflexivity]).
Defined.

(** X10.  Decoding and encoding again is the identity on handles: for
    every 64-bit address [h], [toNapi(toJS(h))] is [h], and what
    [toJS] returns is always a 64-bit word. *)
Theorem toNapi_toJS_roundtrip (h : napi_value) (g : GlobalObject.t) :
  0 <= h < two64 ->
  JSValue.wf (toJS h) /\ result_of (toNapi (toJS h) g) = h.
Proof.
  intros Hh. split.
  - apply to_int64_range.
  - rewrite toNapi_result. unfold toJS, JSValue.decode, JSValue.encode.
    simpl. apply to_uintptr_to_int64. exact Hh.
Qed.

(** The handle with every bit set, a negative word as an [int64_t]. *)
Lemma toNapi_toJS_roundtrip_witness :
  let h := two64 - 1 in
  JSValue.asInt64 (toJS h) = -1
  /\ result_of (toNapi (toJS h)
                  {| GlobalObject.m_currentNapiHandleScopeImpl := None |}) = h.
Proof.
  cbv zeta. split; [reflexivity |].
  apply (toNapi_toJS_roundtrip (two64 - 1)). vm_compute.
  split; [discriminate | reflexivity].
Defined.

(** X11.  The null handle, and no other 64-bit handle, decodes to the
    empty value [JSValue()]. *)
Theorem toJS_empty_iff_null_handle (h : napi_value) :
  0 <= h < two64 ->
  (toJS h = JSValue.empty <-> h = nullptr).
Proof.
  intros Hh. split.
  - intros He. apply (f_equal JSValue.asInt64) in He.
    unfold toJS, JSValue.decode, JSValue.empty in He. simpl in He.
    apply (f_equal to_uintptr) in He.
    rewrite to_uintptr_to_int64 in He by exact Hh. exact He.
  - intros ->. reflexivity.
Qed.

Lemma toJS_empty_iff_null_handle_witness :
  toJS 0 = JSValue.empty /\ toJS 4096 <> JSValue.empty.
Proof.
  split.
  - apply (toJS_empty_iff_null_handle 0); [vm_compute | reflexivity].
    split; [discriminate | reflexivity].
  - intros He. apply (toJS_empty_iff_null_handle 4096) in He.
    + discriminate He.
    + vm_compute. split; [discriminate | reflexivity].
Defined.

Lemma toNapi_all_cons (v : JSValue.t) (vs : list JSValue.t) (g : GlobalObject.t) :
  state_of (toNapi_all (v :: vs) g) = state_of (toNapi_all vs (state_of (toNapi v g)))
  /\ result_of (toNapi_all (v :: vs) g) =
     result_of (toNapi v g) :: result_of (toNapi_all vs (state_of (toNapi v g))).
Proof.
  cbn [toNapi_all]. unfold bind, ret, state_of, result_of.
  destruct (toNapi v g) as [[h g1] t1]. simpl.
  destruct (toNapi_all vs g1) as [[hs g2] t2]. simpl. split; reflexivity.
Qed.

(** X12.  Handing out a sequence of values inside an open scope appends
    exactly the cells among them to that scope, in the order handed out
    and after the entries already there; the enclosing scope is not
    touched, no scope is opened or closed, and with no scope open the
    global object stays as it was.  The handles come back in order, one
    per value. *)
Theorem toNapi_all_appends_the_cells_in_order
    (vs : list JSValue.t) (g : GlobalObject.t) :
  GlobalObject.m_currentNapiHandleScopeImpl (state_of (toNapi_all vs g)) =
    match GlobalObject.m_currentNapiHandleScopeImpl g with
    | Some scope =>
        Some {| NapiHandleScopeImpl.m_storage :=
                  NapiHandleScopeImpl.m_storage scope ++ filter JSValue.isCell vs;
                NapiHandleScopeImpl.m_parent :=
                  NapiHandleScopeImpl.m_parent scope |}
    | None => None
    end
  /\ result_of (toNapi_all vs g) =
     map (fun v => to_uintptr (JSValue.encode v)) vs.
Proof.
  revert g. induction vs as [| v vs IH]; intros g.
  - split; [| reflexivity]. cbn [toNapi_all filter].
    destruct g as [[[storage parent] |]]; cbn; rewrite ?app_nil_r; reflexivity.
  - destruct (toNapi_all_cons v vs g) as [Hs Hr]. rewrite Hs, Hr.
    destruct (IH (state_of (toNapi v g))) as [IHs IHr]. rewrite IHs, IHr.
    rewrite toNapi_result, toNapi_state. split; [| reflexivity].
    cbn [filter].
    destruct (JSValue.isCell v);
      destruct g as [[[storage parent] |]]; cbn; rewrite <- ?app_assoc;
      reflexivity.
Qed.

(** ** The weak slot, read through its accessors *)


(** X14.  A weak slot never hands back a target the collector has
    taken: whenever the observation behind a [Cell] or [String] slot is
    absent or no longer live, [get()] is the empty value, and so is
    [value()] of a reference whose count is 0; while the observation is
    live, [get()] is the cell it observes. *)
Theorem NapiWeakValue_get_of_collected_target_is_empty
    (r : NapiRef.t) (observation : Weak.t) :
  NapiRef.refCount r = 0 ->
  (NapiWeakValue.m_tag (NapiRef.weakValueRef r) = WeakTypeTag.Cell
   /\ cell (NapiWeakValue.m_value (NapiRef.weakValueRef r)) = observation)
  \/ (NapiWeakValue.m_tag (NapiRef.weakValueRef r) = WeakTypeTag.String
      /\ string (NapiWeakValue.m_value (NapiRef.weakValueRef r)) = observation) ->
  match observation with
  | Some impl =>
      match Weak.state impl with
      | Weak.Live => NapiRef.value r = JSValue.of_cell (Weak.target impl)
      | _ => NapiRef.value r = JSValue.empty
      end
  | None => NapiRef.value r = JSValue.empty
  end.
Proof.
  intros Hcount Hslot. unfold NapiRef.value. rewrite Hcount. cbn.
  unfold NapiWeakValue.get.
  destruct Hslot as [[Htag Hobs] | [Htag Hobs]]; rewrite Htag, Hobs;
    destruct observation as [impl |]; cbn; [| reflexivity | | reflexivity];
    destruct (Weak.state impl); reflexivity.
Qed.

(** A reference of count 0 whose target at 4096 has been collected. *)
Lemma NapiWeakValue_get_of_collected_target_is_empty_witness :
  let dead := Some {| Weak.state := Weak.Dead; Weak.target := 4096;
                      Weak.weakHandleOwner := 16; Weak.context := 32 |} in
  let r := {| NapiRef.env := 64; NapiRef.globalObject := None;
              NapiRef.weakValueRef :=
                {| NapiWeakValue.m_tag := WeakTypeTag.Cell;
                   NapiWeakValue.m_value :=
                     {| primitive := JSValue.empty; cell := dead;
                        string := None |} |};
              NapiRef.strongRef := None;
              NapiRef.finalizer := {| finalize_hint := 0; finalize_cb := 0 |};
              NapiRef.data := 0; NapiRef.refCount := 0 |} in
  NapiRef.value r = JSValue.empty.
Proof.
  cbv zeta.
  match goal with
  | |- NapiRef.value ?r = _ =>
      exact (NapiWeakValue_get_of_collected_target_is_empty r
               (Some {| Weak.state := Weak.Dead; Weak.target := 4096;
                        Weak.weakHandleOwner := 16; Weak.context := 32 |})
               eq_refl (or_introl (conj eq_refl eq_refl)))
  end.
Defined.

(** ** The reference, from construction to destruction *)

(** X15.  A reference just constructed reads as the empty value
    whatever its initial count, since neither storage holds anything
    yet; its count is the [uint32_t] it was given, it remembers its
    environment, observes the environment's global object, and carries
    no data and no finalizer hint. *)
Theorem NapiRef_ctor_reads_empty
    (env : napi_env) (env_obj : napi_env__) (count : Z)
    (indeterminate : napi_finalize) :
  let r := NapiRef.ctor env env_obj count indeterminate in
  NapiRef.value r = JSValue.empty
  /\ NapiRef.refCount r = count mod two32
  /\ (uint32_range count -> NapiRef.refCount r = count)
  /\ NapiRef.env r = env
  /\ Weak.get (NapiRef.globalObject r) = globalObject env_obj
  /\ NapiRef.data r = nullptr
  /\ finalize_hint (NapiRef.finalizer r) = nullptr.
Proof.
  cbv zeta. split; [| split; [| split; [| split; [| split]]]].
  - unfold NapiRef.value, NapiRef.ctor. cbn.
    destruct (wrap32 count =? 0); reflexivity.
  - reflexivity.
  - intros Hc. apply wrap32_small. exact Hc.
  - reflexivity.
  - unfold NapiRef.ctor, NapiRef.env_globalObject, Weak.ctor, non_null. cbn.
    destruct (Z.eqb_spec (globalObject env_obj) nullptr) as [-> | Hnz];
      reflexivity.
  - split; reflexivity.
Qed.

(** A strong reference created with count 1 on a fresh environment. *)
Lemma NapiRef_ctor_reads_empty_witness :
  let r := NapiRef.ctor 64 (napi_env_ctor 4096 8192) 1 0 in
  NapiRef.refCount r = 1 /\ NapiRef.value r = JSValue.empty.
Proof.
  cbv zeta. split.
  - apply (NapiRef_ctor_reads_empty 64 (napi_env_ctor 4096 8192) 1 0).
    unfold uint32_range. vm_compute. split; discriminate.
  - apply (NapiRef_ctor_reads_empty 64 (napi_env_ctor 4096 8192) 1 0).
Defined.


(** ** [NapiPrototype::subclass] *)

Lemma result_of_bind {St A B} (m : M St A) (f : A -> M St B) (s : St) :
  result_of (bind m f s) = result_of (f (result_of (m s)) (state_of (m s))).
Proof.
  unfold bind, result_of, state_of.
  destruct (m s) as [[a s1] t1]. simpl.
  destruct (f a s1) as [[b s2] t2]. reflexivity.
Qed.

Lemma result_of_ret {St A} (a : A) (s : St) : result_of (ret a s) = a.
Proof. reflexivity. Qed.

(** Push [state_of] and [result_of] through a sequence. *)
Ltac member_run :=
  repeat (first
    [ rewrite state_of_bind
    | rewrite result_of_bind
    | rewrite state_of_gets
    | rewrite result_of_gets
    | rewrite state_of_modify
    | rewrite state_of_ret
    | rewrite result_of_ret ];
    cbv beta).

Section SubclassFacts.

Variable get_prototype : ptr -> M NapiPrototype.Heap ptr.
Variable createInternalFunctionAllocationStructureFromBase :
  ptr -> ptr -> NapiPrototype.Structure ->
  M NapiPrototype.Heap NapiPrototype.Structure.

(** X17.  When an exception is pending after reading [prototype],
    [subclass] returns null at once: it allocates no cell, does not ask
    for a structure, and leaves the heap as the read left it. *)
Theorem subclass_returns_null_on_pending_exception
    (this : NapiPrototype.t) (g : ptr) (h : NapiPrototype.Heap) :
  NapiPrototype.exception (NapiPrototype.after_lookup get_prototype g h) = true ->
  result_of (NapiPrototype.subclass get_prototype
               createInternalFunctionAllocationStructureFromBase this g h) = None
  /\ state_of (NapiPrototype.subclass get_prototype
                 createInternalFunctionAllocationStructureFromBase this g h)
     = NapiPrototype.after_lookup get_prototype g h.
Proof.
  unfold NapiPrototype.after_lookup. intros Hexc. unfold NapiPrototype.subclass.
  member_run. rewrite Hexc. split; reflexivity.
Qed.

(** X18.  When the function's rare data already caches a structure of
    the receiver's class and of the requested global object, [subclass]
    reuses it: the new cell has exactly that structure and a null
    [napiRef], it is the one cell added to the heap, the cache is left
    alone, and no structure is created. *)
Theorem subclass_reuses_the_cached_structure
    (this : NapiPrototype.t) (g : ptr) (h : NapiPrototype.Heap)
    (st : NapiPrototype.Structure) :
  NapiPrototype.exception (NapiPrototype.after_lookup get_prototype g h) = false ->
  NapiPrototype.internalFunctionAllocationStructure
    (NapiPrototype.rareData_now (NapiPrototype.after_lookup get_prototype g h)) = Some st ->
  NapiPrototype.classInfoForCells st
    = NapiPrototype.classInfoForCells (NapiPrototype.structure this) ->
  NapiPrototype.structure_globalObject st = g ->
  let footprint := {| NapiPrototype.structure := st;
                      NapiPrototype.napiRef := nullptr |} in
  result_of (NapiPrototype.subclass get_prototype
               createInternalFunctionAllocationStructureFromBase this g h)
  = Some footprint
  /\ state_of (NapiPrototype.subclass get_prototype
                 createInternalFunctionAllocationStructureFromBase this g h) =
     {| NapiPrototype.exception := false;
        NapiPrototype.m_rareData := NapiPrototype.m_rareData (NapiPrototype.after_lookup get_prototype g h);
        NapiPrototype.cells :=
          NapiPrototype.cells (NapiPrototype.after_lookup get_prototype g h) ++ [footprint] |}.
Proof.
  unfold NapiPrototype.after_lookup. intros Hexc Hcache Hclass Hglobal. cbv zeta.
  assert (Hreuse : NapiPrototype.reusable this g st = true).
  { unfold NapiPrototype.reusable.
    rewrite Hclass, Hglobal, !Z.eqb_refl. reflexivity. }
  unfold NapiPrototype.subclass. member_run.
  rewrite Hexc. member_run. rewrite Hcache, Hreuse. member_run.
  rewrite Hexc. unfold NapiPrototype.create. member_run.
  rewrite Hexc. split; reflexivity.
Qed.

(** X19.  [subclass] returns null exactly when it leaves an exception
    pending; a cell it returns has a null [napiRef] and is the newest
    cell of the heap. *)
Theorem subclass_null_iff_exception_pending
    (this : NapiPrototype.t) (g : ptr) (h : NapiPrototype.Heap) :
  let run := NapiPrototype.subclass get_prototype
               createInternalFunctionAllocationStructureFromBase this g h in
  (result_of run = None <-> NapiPrototype.exception (state_of run) = true)
  /\ (forall footprint,
        result_of run = Some footprint ->
        NapiPrototype.napiRef footprint = nullptr
        /\ exists older,
             NapiPrototype.cells (state_of run) = older ++ [footprint]).
Proof.
  cbv zeta. unfold NapiPrototype.subclass. member_run.
  set (h1 := state_of (get_prototype g (state_of (NapiPrototype.ensureRareData h)))).
  set (prototype :=
         result_of (get_prototype g (state_of (NapiPrototype.ensureRareData h)))).
  destruct (NapiPrototype.exception h1) eqn:Hexc1.
  { member_run. split; [split; [intros _; exact Hexc1 | reflexivity] |].
    intros footprint H. discriminate H. }
  member_run.
  match goal with
  | |- context [state_of (?m h1)] =>
      set (h2 := state_of (m h1)); set (st := result_of (m h1))
  end.
  destruct (NapiPrototype.exception h2) eqn:Hexc2.
  { member_run. split; [split; [intros _; exact Hexc2 | reflexivity] |].
    intros footprint H. discriminate H. }
  unfold NapiPrototype.create. member_run. cbn [NapiPrototype.exception].
  split.
  - split; [intros H; discriminate H | intros H; congruence].
  - intros footprint H. injection H as <-. split; [reflexivity |].
    exists (NapiPrototype.cells h2). reflexivity.
Qed.

End SubclassFacts.

(** A function whose rare data caches a structure of class 500 for the
    global object 4096, asked again for the same class and global
    object. *)
Lemma subclass_reuses_the_cached_structure_witness :
  let st := {| NapiPrototype.classInfoForCells := 500;
               NapiPrototype.structure_globalObject := 4096;
               NapiPrototype.storedPrototype := 9000 |} in
  let this := {| NapiPrototype.structure :=
                   {| NapiPrototype.classInfoForCells := 500;
                      NapiPrototype.structure_globalObject := 4096;
                      NapiPrototype.storedPrototype := 7000 |};
                 NapiPrototype.napiRef := 64 |} in
  let h := {| NapiPrototype.exception := false;
              NapiPrototype.m_rareData :=
                Some {| NapiPrototype.internalFunctionAllocationStructure :=
                          Some st |};
              NapiPrototype.cells := [] |} in
  result_of (NapiPrototype.subclass (fun _ => ret 9000)
               (fun _ _ base => ret base) this 4096 h)
  = Some {| NapiPrototype.structure := st; NapiPrototype.napiRef := nullptr |}.
Proof.
  cbv zeta.
  match goal with
  | |- result_of (NapiPrototype.subclass ?gp ?cr ?this ?g ?h) = Some ?fp =>
      exact (proj1 (subclass_reuses_the_cached_structure gp cr this g h
                      (NapiPrototype.structure fp)
                      eq_refl eq_refl eq_refl eq_refl))
  end.
Defined.

(** A read of [prototype] that throws. *)
Lemma subclass_returns_null_on_pending_exception_witness :
  let throwing := fun _ : ptr =>
    (modify (fun h =>
       {| NapiPrototype.exception := true;
          NapiPrototype.m_rareData := NapiPrototype.m_rareData h;
          NapiPrototype.cells := NapiPrototype.cells h |}) ;;
     ret nullptr) in
  let this := {| NapiPrototype.structure :=
                   {| NapiPrototype.classInfoForCells := 500;
                      NapiPrototype.structure_globalObject := 4096;
                      NapiPrototype.storedPrototype := 7000 |};
                 NapiPrototype.napiRef := 64 |} in
  let h := {| NapiPrototype.exception := false;
              NapiPrototype.m_rareData := None;
              NapiPrototype.cells := [] |} in
  result_of (NapiPrototype.subclass throwing (fun _ _ base => ret base)
               this 4096 h) = None.
Proof.
  cbv zeta.
  match goal with
  | |- result_of (NapiPrototype.subclass ?gp ?cr ?this ?g ?h) = None =>
      exact (proj1 (subclass_returns_null_on_pending_exception
                      gp cr this g h eq_refl))
  end.
Defined.
